(** * quotes-exporter: the collector and the Twelve Data client

    A shallow embedding of the two Go sources of the exporter:

    - package [main], the collector: [newCollector], [collector.Collect]
      and the package-level metrics, cache and flags;
    - [twelvedata] (twelvedata/twelvedata.go): [Quote].

    Go state is threaded explicitly through a [World] record.  Whatever the
    program reaches through an import (the network, the JSON decoder, the
    [stonks] package, ...) is a field of an [Env] record: the general
    statements below hold for all behaviours of these collaborators, and
    the concrete ones are evaluated on the stub [stubEnv]. *)

From Stdlib Require Import ZArith String Ascii List Lia PrimFloat.
From Stdlib Require Uint63.
From stdpp Require Import base option gmap strings list.

Local Open Scope string_scope.
Local Open Scope Z_scope.

(** ** Go values *)

(** A Go [error] is represented by its message; the nil error is [None]. *)
Definition error := string.

Definition float64 := PrimFloat.float.

(** The values of type [interface{}] that travel through the memoizer: the
    fetcher of [Collect] returns either the untyped nil or a boxed
    [float64]. *)
Inductive any :=
| Nil
| Float64 (f : float64).

(** [v.(float64)] in its comma-ok form. *)
Definition assert_float64 (v : any) : float64 * bool :=
  match v with
  | Float64 f => (f, true)
  | Nil => (0%float, false)
  end.

(** ** Package [strings] and [unicode/utf8] *)

Module strings.

Definition byte_of (c : ascii) : N := N_of_ascii c.

(** [c < utf8.RuneSelf] *)
Definition isSelf (c : ascii) : bool := (byte_of c <? 128)%N.

Fixpoint isASCII (s : string) : bool :=
  match s with
  | EmptyString => true
  | String c r => isSelf c && isASCII r
  end.

(** ['a' <= c && c <= 'z'], then [c -= 'a' - 'A']. *)
Definition isLower (c : ascii) : bool :=
  ((97 <=? byte_of c) && (byte_of c <=? 122))%N.

Definition upperByte (c : ascii) : ascii :=
  if isLower c then ascii_of_N (byte_of c - 32) else c.

Fixpoint mapBytes (f : ascii -> ascii) (s : string) : string :=
  match s with
  | EmptyString => EmptyString
  | String c r => String (f c) (mapBytes f r)
  end.

(** [strings.ToUpper]: the byte loop for ASCII-only strings; any other
    string goes through [strings.Map(unicode.ToUpper, s)], which depends
    on the Unicode tables and is the parameter [unicodeUpper]. *)
Definition ToUpper (unicodeUpper : string -> string) (s : string) : string :=
  if isASCII s then mapBytes upperByte s else unicodeUpper s.

(** [strings.Split(s, sep)] for a one-byte separator, as in the call
    [strings.Split(qvalue, ",")]: the pieces between the separators, so
    that a string with n separators gives n+1 pieces, and the empty
    string gives the one piece [""]. *)
Fixpoint Split (s : string) (sep : ascii) : list string :=
  match s with
  | EmptyString => [EmptyString]
  | String c r =>
      if Ascii.eqb c sep then EmptyString :: Split r sep
      else match Split r sep with
           | p :: ps => String c p :: ps
           | [] => [String c EmptyString]
           end
  end.

(** [utf8.ValidString]: well-formed UTF-8, excluding overlong forms,
    surrogates and code points above U+10FFFF. *)
Definition inRange (lo hi : N) (c : ascii) : bool :=
  ((lo <=? byte_of c) && (byte_of c <=? hi))%N.

Definition cont (c : ascii) : bool := inRange 128 191 c.

Fixpoint ValidString (s : string) : bool :=
  match s with
  | EmptyString => true
  | String b0 r0 =>
      if isSelf b0 then ValidString r0
      else match r0 with
      | EmptyString => false
      | String b1 r1 =>
          if inRange 194 223 b0 then cont b1 && ValidString r1
          else match r1 with
          | EmptyString => false
          | String b2 r2 =>
              if inRange 224 239 b0 then
                (if (byte_of b0 =? 224)%N then inRange 160 191 b1
                 else if (byte_of b0 =? 237)%N then inRange 128 159 b1
                 else cont b1)
                && cont b2 && ValidString r2
              else match r2 with
              | EmptyString => false
              | String b3 r3 =>
                  if inRange 240 244 b0 then
                    (if (byte_of b0 =? 240)%N then inRange 144 191 b1
                     else if (byte_of b0 =? 244)%N then inRange 128 143 b1
                     else cont b1)
                    && cont b2 && cont b3 && ValidString r3
                  else false
              end
          end
      end
  end.

End strings.

(** ** Package [net/url]: the query of the request URL *)

Module url.

(** [url.Values]: each key maps to the list of its values, in the order
    they appear in the query. *)
Abbreviation Values := (gmap string (list string)).

Definition unhex (c : ascii) : option N :=
  let b := strings.byte_of c in
  if ((48 <=? b) && (b <=? 57))%N then Some (b - 48)%N
  else if ((97 <=? b) && (b <=? 102))%N then Some (b - 97 + 10)%N
  else if ((65 <=? b) && (b <=? 70))%N then Some (b - 65 + 10)%N
  else None.

(** [url.QueryUnescape]: [+] is a space and [%XX] the byte XX; a [%] that
    is not followed by two hex digits is an error. *)
Fixpoint QueryUnescape (s : string) : option string :=
  match s with
  | EmptyString => Some EmptyString
  | String "%" (String h (String l r)) =>
      match unhex h, unhex l, QueryUnescape r with
      | Some a, Some b, Some r' => Some (String (ascii_of_N (16 * a + b)) r')
      | _, _, _ => None
      end
  | String "%" _ => None
  | String c r =>
      match QueryUnescape r with
      | Some r' => Some (String (if Ascii.eqb c "+" then " "%char else c) r')
      | None => None
      end
  end.

(** [strings.Cut(s, sep)] for a one-byte separator: the text before and
    after the first separator; all of [s] and [""] when there is none. *)
Fixpoint Cut (s : string) (sep : ascii) : string * string :=
  match s with
  | EmptyString => (EmptyString, EmptyString)
  | String c r =>
      if Ascii.eqb c sep then (EmptyString, r)
      else let '(a, b) := Cut r sep in (String c a, b)
  end.

Fixpoint contains (s : string) (c : ascii) : bool :=
  match s with
  | EmptyString => false
  | String d r => Ascii.eqb d c || contains r c
  end.

(** The body of the loop of [url.parseQuery] for one [&]-separated
    piece; a piece that is empty, holds a semicolon or does not unescape
    is skipped ([URL.Query] drops the error). *)
Definition parsePair (m : Values) (piece : string) : Values :=
  if contains piece ";" then m
  else if String.eqb piece "" then m
  else
    let '(k, v) := Cut piece "=" in
    match QueryUnescape k with
    | None => m
    | Some key =>
        match QueryUnescape v with
        | None => m
        | Some value => <[key := (default [] (m !! key) ++ [value])%list]> m
        end
    end.

(** [URL.Query] on the raw query (the text after the [?]). *)
Definition Query (rawQuery : string) : Values :=
  fold_left parsePair (strings.Split rawQuery "&") ∅.

End url.

(** ** Package [main]: the collector and its construction *)

(** [type collector struct { symbols []string }] *)
Record collector := { symbols : list string }.

(** [newCollector], on the query values of the URL. *)
Definition newCollector_values (q : url.Values) : collector * option error :=
  match q !! "symbols" with
  | None => ({| symbols := [] |}, Some "missing symbols in query")
  | Some qvalues =>
      ({| symbols :=
            fold_left (fun symbols qvalue => (symbols ++ strings.Split qvalue ",")%list)
                      qvalues [] |},
       None)
  end.

(** [newCollector(myurl)], where [rawQuery] is the query of [myurl]. *)
Definition newCollector (rawQuery : string) : collector * option error :=
  newCollector_values (url.Query rawQuery).

(** ** The world the program runs in *)

(** What the program reaches through its imports.  The answer of a
    provider may depend on the time of the call (the first argument); each
    call also says how long it took. *)
Record Env := {
  (** [http.Get(url)] followed by [io.ReadAll(resp.Body)]: the time taken,
      and the error of [Get], or else the error of [ReadAll], or else the
      body. *)
  http_Get : Z -> string -> N * (error + (error + string));
  (** [json.Unmarshal(body, &data)] for [data] of type [price]: its error
      and the field [data.Price] afterwards (empty when the document has
      no such field). *)
  json_Unmarshal : string -> option error * string;
  (** [strconv.ParseFloat(s, 64)] *)
  strconv_ParseFloat : string -> error + float64;
  (** [stonks.Quote(symbol)] of the sibling package [stonks], of which
      only the signature is used: the time taken and the pair it
      returns. *)
  stonks_Quote : Z -> string -> N * (float64 * option error);
  (** [strings.Map(unicode.ToUpper, s)] *)
  unicode_ToUpper : string -> string;
  (** [time.Duration.Seconds], from nanoseconds. *)
  Seconds : Z -> float64
}.

(** The flags of package [main], set once at start-up. *)
Record Flags := {
  flagPort : Z;
  flagEnableTwelvedata : bool;
  flagTwelvedataApiKey : string
}.

(** Requests that leave the process. *)
Inductive Call :=
| HttpGet (url : string)
| StonksQuote (symbol : string).

(** The three [log.Printf] calls of [Collect], by format string:
    ["Error looking up %s: %v"], ["Invalid quote data for %s: %v"] and
    ["Retrieved %s%s, price: %f"]. *)
Inductive LogEntry :=
| LogError (symbol : string) (err : error)
| LogInvalid (symbol : string) (qret : any)
| LogRetrieved (symbol : string) (cached : bool) (price : float64).

(** [time.Minute], in nanoseconds. *)
Definition Minute : Z := 60 * 1000000000.

(** *** github.com/patrickmn/go-cache and github.com/kofalt/go-memoize

    The store behind the memoizer, as one goroutine sees it: an item
    carries the instant it expires ([0]: never); [Get] does not return an
    expired item; [Set] with the default duration stamps the item with
    [now + defaultExpiration]; the janitor calls [DeleteExpired] once per
    [cleanupInterval]. *)
Module gocache.

Record Item := { Object : any; Expiration : Z }.

Abbreviation Items := (gmap string Item).

Definition expired (now : Z) (it : Item) : bool :=
  (0 <? Expiration it) && (Expiration it <? now).

Definition Get (items : Items) (now : Z) (k : string) : any * bool :=
  match items !! k with
  | None => (Nil, false)
  | Some it => if expired now it then (Nil, false) else (Object it, true)
  end.

(** [Set(k, x, d)] for the duration [d] already resolved against the
    default. *)
Definition Set_ (items : Items) (now : Z) (k : string) (x : any) (d : Z) : Items :=
  <[k := {| Object := x; Expiration := if 0 <? d then now + d else 0 |}]> items.

Definition DeleteExpired (items : Items) (now : Z) : Items :=
  filter (fun kv => expired now (snd kv) = false) items.

End gocache.

(** [memoize.Memoizer]: the two durations given to [NewMemoizer], the
    instant it was made (the janitor ticks from there) and the items. *)
Record Memoizer := {
  defaultExpiration : Z;
  cleanupInterval : Z;
  created : Z;
  items : gocache.Items
}.

Definition NewMemoizer (t defaultExpiration cleanupInterval : Z) : Memoizer :=
  {| defaultExpiration := defaultExpiration;
     cleanupInterval := cleanupInterval;
     created := t;
     items := ∅ |}.

(** The instants at which the janitor's ticker fires. *)
Definition janitorTick (m : Memoizer) (t : Z) : Prop :=
  0 < cleanupInterval m /\ exists k, 0 < k /\ t = created m + k * cleanupInterval m.

(** The state of the process and of what it has done so far.  The clock
    moves while a provider is being called and between the steps of a run
    (see [step]); the other statements of the program take no time. *)
Record World := {
  now : Z;                       (** the clock, in nanoseconds *)
  upstream : list Call;          (** requests sent so far, oldest first *)
  stdout : list string;          (** lines of [fmt.Println] *)
  logged : list LogEntry;        (** lines of [log.Printf] *)
  queryDuration : list float64;  (** observations of the summary *)
  queryCount : N;
  errorCount : N;
  cache : Memoizer
}.

(** [var cache = memoize.NewMemoizer(10*time.Minute, 20*time.Minute)],
    evaluated when the process starts at [t]. *)
Definition startup (t : Z) : World :=
  {| now := t; upstream := []; stdout := []; logged := [];
     queryDuration := []; queryCount := 0; errorCount := 0;
     cache := NewMemoizer t (10 * Minute) (20 * Minute) |}.

Definition elapse (d : N) (w : World) : World :=
  {| now := now w + Z.of_N d; upstream := upstream w; stdout := stdout w;
     logged := logged w; queryDuration := queryDuration w;
     queryCount := queryCount w; errorCount := errorCount w; cache := cache w |}.

Definition send (c : Call) (w : World) : World :=
  {| now := now w; upstream := upstream w ++ [c]; stdout := stdout w;
     logged := logged w; queryDuration := queryDuration w;
     queryCount := queryCount w; errorCount := errorCount w; cache := cache w |}.

Definition Println (line : string) (w : World) : World :=
  {| now := now w; upstream := upstream w; stdout := stdout w ++ [line];
     logged := logged w; queryDuration := queryDuration w;
     queryCount := queryCount w; errorCount := errorCount w; cache := cache w |}.

Definition Printf (l : LogEntry) (w : World) : World :=
  {| now := now w; upstream := upstream w; stdout := stdout w;
     logged := logged w ++ [l]; queryDuration := queryDuration w;
     queryCount := queryCount w; errorCount := errorCount w; cache := cache w |}.

Definition Observe (x : float64) (w : World) : World :=
  {| now := now w; upstream := upstream w; stdout := stdout w;
     logged := logged w; queryDuration := queryDuration w ++ [x];
     queryCount := queryCount w; errorCount := errorCount w; cache := cache w |}.

Definition queryCount_Inc (w : World) : World :=
  {| now := now w; upstream := upstream w; stdout := stdout w;
     logged := logged w; queryDuration := queryDuration w;
     queryCount := queryCount w + 1; errorCount := errorCount w; cache := cache w |}.

Definition errorCount_Inc (w : World) : World :=
  {| now := now w; upstream := upstream w; stdout := stdout w;
     logged := logged w; queryDuration := queryDuration w;
     queryCount := queryCount w; errorCount := errorCount w + 1; cache := cache w |}.

Definition setItems (i : gocache.Items) (w : World) : World :=
  {| now := now w; upstream := upstream w; stdout := stdout w;
     logged := logged w; queryDuration := queryDuration w;
     queryCount := queryCount w; errorCount := errorCount w;
     cache := {| defaultExpiration := defaultExpiration (cache w);
                 cleanupInterval := cleanupInterval (cache w);
                 created := created (cache w);
                 items := i |} |}.

(** [%v] of an error value. *)
Definition showError (err : option error) : string :=
  match err with
  | Some msg => msg
  | None => "<nil>"
  end.

(** [cache.Memoize(key, fn)] of go-memoize, for one caller at a time (the
    single-flight group then only runs [fn]): a stored, unexpired value is
    returned with a nil error and [true]; otherwise [fn] runs, its value
    is stored when its error is nil, and its result is returned with
    [false]. *)
Definition Memoize (key : string) (fn : World -> (any * option error) * World)
    (w : World) : (any * option error * bool) * World :=
  let '(value, found) := gocache.Get (items (cache w)) (now w) key in
  if found then ((value, None, true), w)
  else
    let '((data, innerErr), w) := fn w in
    let w :=
      match innerErr with
      | None =>
          setItems (gocache.Set_ (items (cache w)) (now w) key data
                                (defaultExpiration (cache w))) w
      | Some _ => w
      end in
    ((data, innerErr, false), w).

(** The janitor of the store firing in world [w]. *)
Definition sweep (w : World) : World :=
  setItems (gocache.DeleteExpired (items (cache w)) (now w)) w.

(** ** twelvedata/twelvedata.go *)

Module twelvedata.

(** [fmt.Sprintf(twelvedataURL, symbol, apikey)] *)
Definition twelvedataURL (symbol apikey : string) : string :=
  "https://api.twelvedata.com/price?symbol=" ++ symbol ++ "&apikey=" ++ apikey.

(** [Quote(symbol, apikey)] *)
Definition Quote (env : Env) (symbol apikey : string) (w : World)
    : (float64 * option error) * World :=
  let symbol := strings.ToUpper (unicode_ToUpper env) symbol in
  let url := twelvedataURL symbol apikey in
  let '(d, resp) := http_Get env (now w) url in
  let w := elapse d (send (HttpGet url) w) in
  match resp with
  | inl err => ((0%float, Some err), w)
  | inr (inl err) => ((0%float, Some err), w)
  | inr (inr body) =>
      let '(err, data_Price) := json_Unmarshal env body in
      match err with
      | Some msg =>
          ((0%float, err), Println ("Error parsing JSON: " ++ msg) w)
      | None =>
          if String.eqb data_Price "" then
            ((0%float, err),
             Println ("Price is not included in JSON: " ++ showError err) w)
          else
            match strconv_ParseFloat env data_Price with
            | inl msg =>
                ((0%float, Some msg),
                 Println ("Error when type conversion string to float64: " ++ msg) w)
            | inr price => ((price, None), w)
            end
      end
  end.

End twelvedata.

(** ** Package [main]: [Collect] *)

(** A constant gauge metric as built by [prometheus.MustNewConstMetric]
    over [prometheus.NewDesc(name, help, labels, nil)]. *)
Record Metric := {
  fqName : string;
  help : string;
  labels : list (string * string);
  value : float64
}.

(** How one turn of the loop over the symbols ends: it falls through to the
    next symbol, it returns from [Collect], or it panics. *)
Inductive flow :=
| Next
| Return
| Panic (msg : string).

Section Collect.

Context (env : Env) (flags : Flags).

(** The closure [cachedFetcher] of [Collect] for one symbol.  A
    [(float64, error)] result becomes an [(interface{}, error)] one. *)
Definition cachedFetcher (symbol : string) (w : World)
    : (any * option error) * World :=
  if flagEnableTwelvedata flags then
    if String.eqb (flagTwelvedataApiKey flags) "" then
      ((Nil, None),
       Println "Environment variable 'TWELVEDATA_API_KEY' is not set." w)
    else
      let '((price, err), w) :=
        twelvedata.Quote env symbol (flagTwelvedataApiKey flags) w in
      ((Float64 price, err), w)
  else
    let '(d, (price, err)) := stonks_Quote env (now w) symbol in
    ((Float64 price, err), elapse d (send (StonksQuote symbol) w)).

(** [cache.Memoize(symbol, cachedFetcher)] *)
Definition resolve (symbol : string) (w : World)
    : (any * option error * bool) * World :=
  Memoize symbol (cachedFetcher symbol) w.

(** [prometheus.MustNewConstMetric(NewDesc("quotes_exporter_price",
    "Asset Price.", ls, nil), GaugeValue, price, lvs...)]: the constructor
    rejects a label value that is not valid UTF-8, and [Must] panics
    then. *)
Definition MustNewConstMetric (symbol : string) (price : float64)
    : string + Metric :=
  if strings.ValidString symbol then
    inr {| fqName := "quotes_exporter_price";
           help := "Asset Price.";
           labels := [("symbol", symbol); ("name", symbol)];
           value := price |}
  else inl "label value is not valid UTF-8".

(** The body of [for _, symbol := range c.symbols]; [ch] holds what has
    been sent on the channel. *)
Definition Collect_symbol (symbol : string) (ch : list Metric) (w : World)
    : flow * list Metric * World :=
  let start := now w in
  let '((qret, err, cached), w) := resolve symbol w in
  let w := Observe (Seconds env (now w - start)) w in
  match err with
  | Some msg => (Return, ch, Printf (LogError symbol msg) (errorCount_Inc w))
  | None =>
      let '(price, ok) := assert_float64 qret in
      if negb ok then
        (Return, ch, Printf (LogInvalid symbol qret) (errorCount_Inc w))
      else
        let w := Printf (LogRetrieved symbol cached price) w in
        match MustNewConstMetric symbol price with
        | inl msg => (Panic msg, ch, w)
        | inr m => (Next, (ch ++ [m])%list, w)
        end
  end.

Fixpoint Collect_range (l : list string) (ch : list Metric) (w : World)
    : flow * list Metric * World :=
  match l with
  | [] => (Next, ch, w)
  | symbol :: l' =>
      match Collect_symbol symbol ch w with
      | (Next, ch, w) => Collect_range l' ch w
      | stop => stop
      end
  end.

(** [c.Collect(ch)]: how it ends, the metrics sent on [ch], and the world
    afterwards. *)
Definition Collect (c : collector) (w : World) : flow * list Metric * World :=
  Collect_range (symbols c) [] (queryCount_Inc w).

(** The symbols for which [Collect] calls the memoizer: all of them up to
    and including the first one whose turn does not fall through. *)
Fixpoint attempted (l : list string) (ch : list Metric) (w : World)
    : list string :=
  match l with
  | [] => []
  | symbol :: l' =>
      symbol ::
        match Collect_symbol symbol ch w with
        | (Next, ch, w) => attempted l' ch w
        | _ => []
        end
  end.

(** The moves of a running exporter, one statement at a time: its
    scrapes resolve symbols, observe durations, log and count; time goes
    by; the janitor of the cache fires on one of its ticks. *)
Inductive step : World -> World -> Prop :=
| step_resolve symbol w : step w (snd (resolve symbol w))
| step_Observe x w : step w (Observe x w)
| step_Printf l w : step w (Printf l w)
| step_queryCount w : step w (queryCount_Inc w)
| step_errorCount w : step w (errorCount_Inc w)
| step_elapse d w : step w (elapse d w)
| step_sweep w : janitorTick (cache w) (now w) -> step w (sweep w).

(** The worlds of a process started at some instant (of the Unix epoch,
    so not negative). *)
Definition reachable (w : World) : Prop :=
  exists t, 0 <= t /\ rtc step (startup t) w.

End Collect.


(** ** Predicates on worlds used in the statements *)

(** A call to a quote provider moves the clock forward, sends requests and
    prints; it leaves the log, the three metrics and the cache alone. *)
Definition outbound (w w' : World) : Prop :=
  now w <= now w'
  /\ logged w' = logged w
  /\ queryDuration w' = queryDuration w
  /\ queryCount w' = queryCount w
  /\ errorCount w' = errorCount w
  /\ cache w' = cache w.

(** What one turn adds to the error counter, by the way it ends. *)
Definition failures (f : flow) : N :=
  match f with
  | Return => 1
  | Next | Panic _ => 0
  end.

(** The durations of the cache and its time of creation never change. *)
Definition sameConfig (m m' : Memoizer) : Prop :=
  defaultExpiration m' = defaultExpiration m
  /\ cleanupInterval m' = cleanupInterval m
  /\ created m' = created m.

(** Every stored value is the untyped nil. *)
Definition onlyNil (w : World) : Prop :=
  forall k it, items (cache w) !! k = Some it -> gocache.Object it = Nil.

(** *** A stub provider

    [stonks.Quote] answering AAA with 10.0, CCC with 30.0 and anything
    else with an error, at once; the Twelve Data side answers every request
    with the empty JSON object. *)
Definition stubEnv : Env :=
  {| http_Get := fun _ _ => (5%N, inr (inr "{}"));
     json_Unmarshal := fun body =>
       if String.eqb body "{}" then (None, "")
       else (Some "invalid character", "");
     strconv_ParseFloat := fun _ => inl "invalid syntax";
     stonks_Quote := fun _ symbol =>
       if String.eqb symbol "AAA" then (7%N, (10%float, None))
       else if String.eqb symbol "CCC" then (7%N, (30%float, None))
       else (7%N, (0%float, Some "no quote"));
     unicode_ToUpper := strings.mapBytes strings.upperByte;
     Seconds := fun d => (PrimFloat.of_uint63 (Uint63.of_Z d) / 1000000000)%float |}.

Definition stonksFlags : Flags :=
  {| flagPort := 9340; flagEnableTwelvedata := false; flagTwelvedataApiKey := "" |}.

Definition twelvedataFlags (key : string) : Flags :=
  {| flagPort := 9340; flagEnableTwelvedata := true; flagTwelvedataApiKey := key |}.

Definition price_metric (symbol : string) (price : float64) : Metric :=
  {| fqName := "quotes_exporter_price"; help := "Asset Price.";
     labels := [("symbol", symbol); ("name", symbol)]; value := price |}.

(** ** Package [main]: [Describe] *)



(** ** Further notions used in the statements *)

(** The number of occurrences of a byte in a string. *)
Fixpoint occurrences (c : ascii) (s : string) : nat :=
  match s with
  | EmptyString => 0%nat
  | String d r => ((if Ascii.eqb d c then 1 else 0) + occurrences c r)%nat
  end.

(** The strings of a list written one after the other with a separator in
    between (what [strings.Join] computes). *)
Fixpoint Join (l : list string) (sep : string) : string :=
  match l with
  | [] => ""
  | [x] => x
  | x :: r => x ++ sep ++ Join r sep
  end.

(** The symbol a log line is about. *)
Definition entrySymbol (l : LogEntry) : string :=
  match l with
  | LogError symbol _ => symbol
  | LogInvalid symbol _ => symbol
  | LogRetrieved symbol _ _ => symbol
  end.

(** The requests that the selected provider sends. *)
Definition ofSelectedProvider (flags : Flags) (c : Call) : Prop :=
  match c with
  | StonksQuote _ => flagEnableTwelvedata flags = false
  | HttpGet u =>
      flagEnableTwelvedata flags = true
      /\ exists symbol, u = twelvedata.twelvedataURL symbol (flagTwelvedataApiKey flags)
  end.

(** The cache of [w] holds the price [p] for the symbol, and the entry has
    not expired. *)
Definition cachedPrice (w : World) (symbol : string) (p : float64) : Prop :=
  exists it, items (cache w) !! symbol = Some it
             /\ gocache.Object it = Float64 p
             /\ gocache.expired (now w) it = false.

(** What a scrape answered from the cache leaves unchanged. *)
Definition quiet (w w' : World) : Prop :=
  now w' = now w /\ upstream w' = upstream w /\ stdout w' = stdout w
  /\ errorCount w' = errorCount w /\ cache w' = cache w.

(** Every stored item expires, at an instant that is not later than ten
    minutes from now. *)
Definition boundedExpiry (w : World) : Prop :=
  forall k it, items (cache w) !! k = Some it ->
               0 < gocache.Expiration it <= now w + 10 * Minute.

(** No stored value is the untyped nil. *)
Definition neverNil (w : World) : Prop :=
  forall k it, items (cache w) !! k = Some it -> gocache.Object it <> Nil.

(** What never shrinks: the clock, the two counters, and the records of
    requests, printed lines, log lines and observations. *)
Definition grows (w w' : World) : Prop :=
  now w <= now w'
  /\ (queryCount w <= queryCount w')%N
  /\ (errorCount w <= errorCount w')%N
  /\ upstream w `prefix_of` upstream w'
  /\ stdout w `prefix_of` stdout w'
  /\ logged w `prefix_of` logged w'
  /\ queryDuration w `prefix_of` queryDuration w'.


(** The life of an exporter seen from outside: whole scrapes, with time
    going by and ticks of the janitor in between. *)
Inductive scrape (env : Env) (flags : Flags) : World -> World -> Prop :=
| scrape_Collect c w : scrape env flags w (snd (Collect env flags c w))
| scrape_elapse d w : scrape env flags w (elapse d w)
| scrape_sweep w : janitorTick (cache w) (now w) -> scrape env flags w (sweep w).

(** * Properties *)

(** ** The definitions on concrete requests *)

Example newCollector_two_params :
  newCollector "symbols=AAA,BBB&symbols=CCC"
  = ({| symbols := ["AAA"; "BBB"; "CCC"] |}, None).
Proof. vm_compute. reflexivity. Qed.

Example newCollector_absent :
  newCollector "other=1" = ({| symbols := [] |}, Some "missing symbols in query").
Proof. vm_compute. reflexivity. Qed.

Example newCollector_empty :
  newCollector "symbols=" = ({| symbols := [""] |}, None).
Proof. vm_compute. reflexivity. Qed.

(** A parameter that does not unescape is dropped by the parser, and so
    counts as absent. *)
Example newCollector_malformed :
  newCollector "symbols=%zz" = ({| symbols := [] |}, Some "missing symbols in query").
Proof. vm_compute. reflexivity. Qed.

Example newCollector_escaped :
  newCollector "symbols=BRK%2EB,A+B&x=1&symbols"
  = ({| symbols := ["BRK.B"; "A B"; ""] |}, None).
Proof. vm_compute. reflexivity. Qed.

Example ValidString_samples :
  strings.ValidString "AAPL" = true
  /\ strings.ValidString (String (ascii_of_N 255) "") = false
  /\ strings.ValidString (String (ascii_of_N 195) (String (ascii_of_N 169) "")) = true.
Proof. vm_compute. repeat split; reflexivity. Qed.

(** ** What a provider call may touch *)

(** Case analysis on an innermost scrutinee of the goal. *)
Ltac break_match :=
  match goal with
  | |- context [match ?x with _ => _ end] =>
      lazymatch x with
      | context [match _ with _ => _ end] => fail
      | _ => destruct x eqn:?
      end
  end.

Lemma Quote_outbound env symbol apikey w :
  outbound w (snd (twelvedata.Quote env symbol apikey w)).
Proof.
  unfold twelvedata.Quote, outbound.
  repeat break_match; cbn; repeat split; lia.
Qed.

Section CollectFacts.

Context (env : Env) (flags : Flags).

Lemma cachedFetcher_outbound symbol w :
  outbound w (snd (cachedFetcher env flags symbol w)).
Proof.
  unfold cachedFetcher.
  destruct (flagEnableTwelvedata flags).
  - destruct (String.eqb _ _).
    + unfold outbound; cbn; repeat split; lia.
    + pose proof (Quote_outbound env symbol (flagTwelvedataApiKey flags) w) as H.
      destruct (twelvedata.Quote _ _ _ _) as [[price err] w']. exact H.
  - destruct (stonks_Quote env (now w) symbol) as [d [price err]].
    unfold outbound; cbn; repeat split; lia.
Qed.

(** The memoizer adds at most a change of the stored items. *)
Lemma resolve_frame symbol w :
  let w' := snd (resolve env flags symbol w) in
  now w <= now w'
  /\ logged w' = logged w
  /\ queryDuration w' = queryDuration w
  /\ queryCount w' = queryCount w
  /\ errorCount w' = errorCount w
  /\ defaultExpiration (cache w') = defaultExpiration (cache w)
  /\ cleanupInterval (cache w') = cleanupInterval (cache w)
  /\ created (cache w') = created (cache w).
Proof.
  unfold resolve, Memoize.
  destruct (gocache.Get _ _ _) as [value found].
  destruct found; cbn.
  - repeat split; lia.
  - pose proof (cachedFetcher_outbound symbol w) as H.
    destruct (cachedFetcher env flags symbol w) as [[data innerErr] w1].
    destruct H as (H1 & H2 & H3 & H4 & H5 & H6). cbn in *.
    destruct innerErr; cbn; rewrite ?H6; repeat split; assumption.
Qed.

Lemma Collect_symbol_queryCount symbol ch w :
  queryCount (snd (Collect_symbol env flags symbol ch w)) = queryCount w.
Proof.
  unfold Collect_symbol.
  pose proof (resolve_frame symbol w) as H.
  destruct (resolve env flags symbol w) as [[[qret err] cached] w1].
  cbn in H. destruct H as (_ & _ & _ & H & _).
  repeat break_match; cbn; exact H.
Qed.

Lemma Collect_range_queryCount l : forall ch w,
  queryCount (snd (Collect_range env flags l ch w)) = queryCount w.
Proof.
  induction l as [|symbol l IH]; intros ch w; cbn; [reflexivity|].
  pose proof (Collect_symbol_queryCount symbol ch w) as H.
  destruct (Collect_symbol env flags symbol ch w) as [[f ch1] w1].
  cbn in H. destruct f; cbn; try exact H.
  rewrite IH. exact H.
Qed.

(** C7: a [Collect] invocation adds exactly one to the query counter,
    whatever the number of symbols (none included) and however their
    resolutions end; no turn of the loop touches the counter. *)
Theorem Collect_queryCount_once (c : collector) (w : World) :
  queryCount (snd (Collect env flags c w)) = (queryCount w + 1)%N
  /\ forall symbol ch w0,
       queryCount (snd (Collect_symbol env flags symbol ch w0)) = queryCount w0.
Proof.
  split.
  - unfold Collect. rewrite Collect_range_queryCount. reflexivity.
  - apply Collect_symbol_queryCount.
Qed.

Lemma Collect_symbol_errorCount symbol ch w :
  let '(f, _, w') := Collect_symbol env flags symbol ch w in
  errorCount w' = (errorCount w + failures f)%N.
Proof.
  unfold Collect_symbol.
  pose proof (resolve_frame symbol w) as H.
  destruct (resolve env flags symbol w) as [[[qret err] cached] w1].
  cbn in H. destruct H as (_ & _ & _ & _ & H & _).
  repeat break_match; cbn; lia.
Qed.

Lemma Collect_range_errorCount l : forall ch w,
  let '(f, _, w') := Collect_range env flags l ch w in
  errorCount w' = (errorCount w + failures f)%N.
Proof.
  induction l as [|symbol l IH]; intros ch w; cbn; [lia|].
  pose proof (Collect_symbol_errorCount symbol ch w) as H.
  destruct (Collect_symbol env flags symbol ch w) as [[f ch1] w1].
  destruct f; cbn in *; try exact H.
  specialize (IH ch1 w1).
  destruct (Collect_range env flags l ch1 w1) as [[f2 ch2] w2]. lia.
Qed.

(** A turn that does not fall through ends the loop: no later symbol is
    attempted. *)
Lemma attempted_stops symbol l ch w :
  fst (fst (Collect_symbol env flags symbol ch w)) <> Next ->
  attempted env flags (symbol :: l) ch w = [symbol]
  /\ Collect_range env flags (symbol :: l) ch w
     = Collect_symbol env flags symbol ch w.
Proof.
  intros H. cbn.
  destruct (Collect_symbol env flags symbol ch w) as [[f ch1] w1].
  destruct f; cbn in *; [congruence | split; reflexivity ..].
Qed.

(** C10: one [Collect] invocation adds at most one to the error counter:
    the turn that counts a failure (an error of the fetch, or a value that
    is not a [float64]) returns from [Collect], so the loop reaches no
    later symbol. *)
Theorem Collect_errorCount_at_most_once (c : collector) (w : World) :
  let '(f, _, w') := Collect env flags c w in
  (errorCount w' <= errorCount w + 1)%N
  /\ (errorCount w' = (errorCount w + 1)%N <-> f = Return)
  /\ forall symbol l ch w0,
       let '(f0, ch1, w1) := Collect_symbol env flags symbol ch w0 in
       errorCount w1 <> errorCount w0 ->
       f0 = Return
       /\ attempted env flags (symbol :: l) ch w0 = [symbol]
       /\ Collect_range env flags (symbol :: l) ch w0 = (f0, ch1, w1).
Proof.
  unfold Collect.
  pose proof (Collect_range_errorCount (symbols c) [] (queryCount_Inc w)) as H.
  destruct (Collect_range env flags (symbols c) [] (queryCount_Inc w))
    as [[f ch] w'].
  cbn in H. split; [|split].
  - destruct f; cbn in H; lia.
  - destruct f; cbn in H; split; intros; try congruence; lia.
  - intros symbol l ch0 w0.
    pose proof (Collect_symbol_errorCount symbol ch0 w0) as H0.
    pose proof (attempted_stops symbol l ch0 w0) as H1.
    destruct (Collect_symbol env flags symbol ch0 w0) as [[f0 ch1] w1].
    intros Hne. cbn in H1.
    destruct f0; cbn in H0; try (exfalso; apply Hne; lia).
    split; [reflexivity|]. apply H1. discriminate.
Qed.

Lemma Collect_symbol_queryDuration symbol ch w :
  queryDuration (snd (Collect_symbol env flags symbol ch w))
  = (queryDuration w
     ++ [Seconds env (now (snd (resolve env flags symbol w)) - now w)])%list.
Proof.
  unfold Collect_symbol.
  pose proof (resolve_frame symbol w) as H.
  destruct (resolve env flags symbol w) as [[[qret err] cached] w1].
  cbn in H. destruct H as (_ & _ & H & _).
  repeat break_match; cbn; rewrite H; reflexivity.
Qed.

Lemma Collect_range_queryDuration l : forall ch w,
  length (queryDuration (snd (Collect_range env flags l ch w)))
  = (length (queryDuration w) + length (attempted env flags l ch w))%nat.
Proof.
  induction l as [|symbol l IH]; intros ch w; cbn; [lia|].
  pose proof (Collect_symbol_queryDuration symbol ch w) as H.
  destruct (Collect_symbol env flags symbol ch w) as [[f ch1] w1].
  cbn in H.
  destruct f; cbn; rewrite ?IH, H, length_app; cbn; lia.
Qed.

(** C8: every turn of the loop observes the time that went by during its
    call of the memoizer, before it looks at the outcome: the observation
    is made whether the turn goes on to send a metric, fails on an error,
    fails on a value that is not a [float64], or panics.  Over a whole
    [Collect] there is one observation per attempted symbol. *)
Theorem Collect_observes_every_fetch :
  (forall symbol ch w,
     let '(r, w1) := resolve env flags symbol w in
     let '(f, _, w') := Collect_symbol env flags symbol ch w in
     queryDuration w' = (queryDuration w ++ [Seconds env (now w1 - now w)])%list)
  /\ (forall c w,
        let '(_, _, w') := Collect env flags c w in
        length (queryDuration w')
        = (length (queryDuration w)
           + length (attempted env flags (symbols c) [] (queryCount_Inc w)))%nat).
Proof.
  split.
  - intros symbol ch w.
    pose proof (Collect_symbol_queryDuration symbol ch w) as H.
    destruct (resolve env flags symbol w) as [r w1].
    destruct (Collect_symbol env flags symbol ch w) as [[f ch1] w'].
    exact H.
  - intros c w. unfold Collect.
    pose proof (Collect_range_queryDuration (symbols c) [] (queryCount_Inc w)) as H.
    destruct (Collect_range env flags (symbols c) [] (queryCount_Inc w))
      as [[f ch] w'].
    exact H.
Qed.

End CollectFacts.

(** ** Upper-casing in [twelvedata.Quote] *)

Lemma upperByte_idem c : strings.upperByte (strings.upperByte c) = strings.upperByte c.
Proof. destruct c as [[] [] [] [] [] [] [] []]; reflexivity. Qed.

Lemma upperByte_isSelf c : strings.isSelf (strings.upperByte c) = strings.isSelf c.
Proof. destruct c as [[] [] [] [] [] [] [] []]; reflexivity. Qed.

Lemma mapBytes_upper_idem s :
  strings.mapBytes strings.upperByte (strings.mapBytes strings.upperByte s)
  = strings.mapBytes strings.upperByte s.
Proof.
  induction s as [|c s IH]; cbn; [reflexivity|].
  rewrite upperByte_idem, IH. reflexivity.
Qed.

Lemma mapBytes_upper_isASCII s :
  strings.isASCII (strings.mapBytes strings.upperByte s) = strings.isASCII s.
Proof.
  induction s as [|c s IH]; cbn; [reflexivity|].
  rewrite upperByte_isSelf, IH. reflexivity.
Qed.

Section Upper.

Context (env : Env).

Abbreviation ToUpper := (strings.ToUpper (unicode_ToUpper env)).

(** On the Unicode path an upper-cased string is left as it is by a second
    upper-casing; this is a fact about the case tables of package
    [unicode]. *)
Hypothesis unicode_ToUpper_stable :
  forall s, strings.isASCII s = false ->
            ToUpper (unicode_ToUpper env s) = unicode_ToUpper env s.

Lemma ToUpper_idem s : ToUpper (ToUpper s) = ToUpper s.
Proof.
  unfold strings.ToUpper at 2 3.
  destruct (strings.isASCII s) eqn:Hs.
  - unfold strings.ToUpper.
    rewrite mapBytes_upper_isASCII, Hs. apply mapBytes_upper_idem.
  - apply unicode_ToUpper_stable, Hs.
Qed.

(** C9: [Quote] upper-cases its symbol before it builds the request: the
    request it sends carries the upper-cased symbol, and calling it with
    the symbol already upper-cased gives the same result and the same
    world (the same request, the same printed lines, the same clock). *)
Theorem Quote_normalizes_symbol (s k : string) (w : World) :
  twelvedata.Quote env s k w = twelvedata.Quote env (ToUpper s) k w
  /\ upstream (snd (twelvedata.Quote env s k w))
     = (upstream w ++ [HttpGet (twelvedata.twelvedataURL (ToUpper s) k)])%list.
Proof.
  split.
  - unfold twelvedata.Quote. rewrite ToUpper_idem. reflexivity.
  - unfold twelvedata.Quote.
    repeat break_match; reflexivity.
Qed.

End Upper.

Lemma stubEnv_unicode_stable s :
  strings.isASCII s = false ->
  strings.ToUpper (unicode_ToUpper stubEnv) (unicode_ToUpper stubEnv s)
  = unicode_ToUpper stubEnv s.
Proof.
  intros _. unfold strings.ToUpper. cbn.
  rewrite mapBytes_upper_idem. destruct (strings.isASCII _); reflexivity.
Qed.

Lemma Quote_normalizes_symbol_witness :
  twelvedata.Quote stubEnv "aapl" "k" (startup 0)
  = twelvedata.Quote stubEnv (strings.ToUpper (unicode_ToUpper stubEnv) "aapl") "k" (startup 0)
  /\ upstream (snd (twelvedata.Quote stubEnv "aapl" "k" (startup 0)))
     = (upstream (startup 0)
        ++ [HttpGet (twelvedata.twelvedataURL
                       (strings.ToUpper (unicode_ToUpper stubEnv) "aapl") "k")])%list.
Proof.
  exact (Quote_normalizes_symbol stubEnv stubEnv_unicode_stable "aapl" "k" (startup 0)).
Defined.

Example Quote_request_url :
  upstream (snd (twelvedata.Quote stubEnv "aapl" "k" (startup 0)))
  = [HttpGet "https://api.twelvedata.com/price?symbol=AAPL&apikey=k"].
Proof. vm_compute. reflexivity. Qed.

(** ** Runs of the exporter *)

Section Runs.

Context (env : Env) (flags : Flags).

Lemma step_config w w' :
  step env flags w w' -> sameConfig (cache w) (cache w') /\ now w <= now w'.
Proof.
  intros [symbol w0 | x w0 | l w0 | w0 | w0 | d w0 | w0 _];
    try (split; [repeat split | cbn; lia]).
  pose proof (resolve_frame env flags symbol w0) as (H1 & _ & _ & _ & _ & H2).
  split; [exact H2 | exact H1].
Qed.


(** A turn of the loop, and so a whole [Collect], is a sequence of
    moves. *)
Lemma Collect_symbol_steps symbol ch w :
  rtc (step env flags) w (snd (Collect_symbol env flags symbol ch w)).
Proof.
  unfold Collect_symbol.
  pose proof (step_resolve env flags symbol w) as Hr.
  destruct (resolve env flags symbol w) as [[[qret err] cached] w1]. cbn in Hr.
  eapply rtc_l; [exact Hr|].
  eapply rtc_l; [apply step_Observe|].
  repeat break_match; cbn;
    first [ apply rtc_once, step_Printf
          | eapply rtc_l; [apply step_errorCount | apply rtc_once, step_Printf] ].
Qed.

Lemma Collect_range_steps l : forall ch w,
  rtc (step env flags) w (snd (Collect_range env flags l ch w)).
Proof.
  induction l as [|symbol l IH]; intros ch w; cbn; [apply rtc_refl|].
  pose proof (Collect_symbol_steps symbol ch w) as H.
  destruct (Collect_symbol env flags symbol ch w) as [[f ch1] w1]. cbn in H.
  destruct f; cbn; try exact H.
  eapply rtc_trans; [exact H | apply IH].
Qed.

Lemma Collect_steps c w : rtc (step env flags) w (snd (Collect env flags c w)).
Proof.
  unfold Collect. eapply rtc_l; [apply step_queryCount | apply Collect_range_steps].
Qed.

Lemma Collect_reachable c w :
  reachable env flags w -> reachable env flags (snd (Collect env flags c w)).
Proof.
  intros (t & Ht & H). exists t. split; [exact Ht|].
  eapply rtc_trans; [exact H | apply Collect_steps].
Qed.

(** The cache of a running exporter is the one made at start-up: items
    are fresh for 10 minutes and the janitor fires every 20 minutes. *)
Lemma reachable_config w :
  reachable env flags w ->
  defaultExpiration (cache w) = 10 * Minute
  /\ cleanupInterval (cache w) = 20 * Minute
  /\ 0 <= created (cache w) <= now w.
Proof.
  intros (t & Ht & H).
  cut (defaultExpiration (cache w) = 10 * Minute
       /\ cleanupInterval (cache w) = 20 * Minute
       /\ created (cache w) = t /\ t <= now w); [intuition lia|].
  revert w H. apply rtc_ind_r.
  - cbn. repeat split; lia.
  - intros w1 w2 _ Hs IH.
    destruct (step_config _ _ Hs) as ((H1 & H2 & H3) & H4).
    destruct IH as (I1 & I2 & I3 & I4). repeat split; try congruence; lia.
Qed.

(** *** The memoizer, hit and miss *)

Lemma resolve_hit symbol w it :
  items (cache w) !! symbol = Some it ->
  gocache.expired (now w) it = false ->
  resolve env flags symbol w = ((gocache.Object it, None, true), w).
Proof.
  intros Hit Hfresh. unfold resolve, Memoize, gocache.Get.
  rewrite Hit, Hfresh. reflexivity.
Qed.




(** The janitor removes exactly the items that are past their
    expiration. *)
Lemma sweep_lookup w k :
  items (cache (sweep w)) !! k
  = match items (cache w) !! k with
    | Some it => if gocache.expired (now w) it then None else Some it
    | None => None
    end.
Proof.
  unfold sweep, gocache.DeleteExpired. cbn.
  destruct (items (cache w) !! k) as [it|] eqn:Hk.
  - destruct (gocache.expired (now w) it) eqn:He.
    + apply map_lookup_filter_None. right. intros x Hx. cbn.
      rewrite Hk in Hx. injection Hx as <-. congruence.
    + apply map_lookup_filter_Some. split; [exact Hk | exact He].
  - apply map_lookup_filter_None. left. exact Hk.
Qed.





End Runs.

Lemma startup_reachable env flags t : 0 <= t -> reachable env flags (startup t).
Proof. intros Ht. exists t. split; [exact Ht | apply rtc_refl]. Qed.


(** Two scrapes of AAA one minute apart: one request upstream, the second
    sample comes from the cache. *)
Example two_scrapes_one_request :
  let c := {| symbols := ["AAA"] |} in
  let '(_, ch1, w1) := Collect stubEnv stonksFlags c (startup 0) in
  let '(_, ch2, w2) := Collect stubEnv stonksFlags c (elapse (Z.to_N Minute) w1) in
  ch1 = [price_metric "AAA" 10%float] /\ ch2 = ch1
  /\ upstream w2 = [StonksQuote "AAA"]
  /\ logged w2 = [LogRetrieved "AAA" false 10%float; LogRetrieved "AAA" true 10%float].
Proof. vm_compute. repeat split; reflexivity. Qed.

(** A success, an error and a nil value each leave one observation. *)
Example one_observation_whatever_the_outcome :
  let run flags symbol :=
    let '(f, ch, w) := Collect stubEnv flags {| symbols := [symbol] |} (startup 0) in
    (f, length ch, errorCount w, length (queryDuration w)) in
  run stonksFlags "AAA" = (Next, 1%nat, 0%N, 1%nat)
  /\ run stonksFlags "BBB" = (Return, 0%nat, 1%N, 1%nat)
  /\ run (twelvedataFlags "") "AAA" = (Return, 0%nat, 1%N, 1%nat).
Proof. vm_compute. repeat split; reflexivity. Qed.

(** ** The samples of one [Collect] *)

Section Samples.

Context (env : Env) (flags : Flags).

(** One turn of the loop sends a sample exactly when its resolution gave a
    [float64] with a nil error (and the symbol is a valid label value);
    then it falls through to the next symbol, and otherwise it does
    not. *)
Lemma Collect_symbol_sample symbol ch w :
  let '(qret, err, cached) := fst (resolve env flags symbol w) in
  let '(f, ch', _) := Collect_symbol env flags symbol ch w in
  match err, qret with
  | None, Float64 price =>
      if strings.ValidString symbol
      then f = Next /\ ch' = (ch ++ [price_metric symbol price])%list
      else f <> Next /\ ch' = ch
  | _, _ => f = Return /\ ch' = ch
  end.
Proof.
  unfold Collect_symbol, MustNewConstMetric, price_metric.
  destruct (resolve env flags symbol w) as [[[qret err] cached] w1]. cbn.
  destruct err as [msg|]; [split; reflexivity|].
  destruct qret as [|price]; cbn; [split; reflexivity|].
  destruct (strings.ValidString symbol); split; reflexivity || discriminate.
Qed.

Lemma Collect_symbol_ch_length symbol ch w :
  (length (snd (fst (Collect_symbol env flags symbol ch w))) <= S (length ch))%nat.
Proof.
  pose proof (Collect_symbol_sample symbol ch w) as H.
  destruct (fst (resolve env flags symbol w)) as [[qret err] cached].
  destruct (Collect_symbol env flags symbol ch w) as [[f ch'] w']. cbn.
  destruct err, qret; try (destruct H as [_ ->]; lia).
  destruct (strings.ValidString symbol); destruct H as [_ ->];
    rewrite ?length_app; cbn; lia.
Qed.

(** [Collect] sends at most one sample per symbol. *)
Lemma Collect_range_ch_length l : forall ch w,
  (length (snd (fst (Collect_range env flags l ch w))) <= length ch + length l)%nat.
Proof.
  induction l as [|symbol l IH]; intros ch w; cbn; [lia|].
  pose proof (Collect_symbol_ch_length symbol ch w) as H.
  destruct (Collect_symbol env flags symbol ch w) as [[f ch1] w1]. cbn in H.
  destruct f; cbn; try lia.
  specialize (IH ch1 w1). lia.
Qed.

End Samples.

(** C1: for the request [symbols=AAA,BBB&symbols=CCC] and a provider that
    knows AAA (10.0) and CCC (30.0) and fails on BBB, [Collect] returns at
    BBB: it sends the sample of AAA only and counts one error, and CCC,
    whose resolution succeeds, is never attempted. *)
Theorem Collect_returns_at_first_failure :
  let c := fst (newCollector "symbols=AAA,BBB&symbols=CCC") in
  let w0 := queryCount_Inc (startup 0) in
  let '(f, ch, w) := Collect stubEnv stonksFlags c (startup 0) in
  symbols c = ["AAA"; "BBB"; "CCC"]
  /\ fst (resolve stubEnv stonksFlags "AAA" w0) = (Float64 10%float, None, false)
  /\ snd (fst (fst (resolve stubEnv stonksFlags "BBB" w0))) = Some "no quote"
  /\ fst (resolve stubEnv stonksFlags "CCC" w0) = (Float64 30%float, None, false)
  /\ f = Return
  /\ ch = [price_metric "AAA" 10%float]
  /\ errorCount w = (errorCount (startup 0) + 1)%N
  /\ attempted stubEnv stonksFlags (symbols c) [] w0 = ["AAA"; "BBB"]
  /\ upstream w = [StonksQuote "AAA"; StonksQuote "BBB"].
Proof. vm_compute. repeat split; reflexivity. Qed.

(** C2: on the symbols AAA, BBB, CCC with the same provider, the
    resolution of CCC succeeds with the [float64] 30.0 (before the
    invocation and after it), and yet [Collect] sends no sample labelled
    CCC: it has returned at BBB. *)
Theorem Collect_omits_resolvable_symbol :
  let c := {| symbols := ["AAA"; "BBB"; "CCC"] |} in
  let '(f, ch, w) := Collect stubEnv stonksFlags c (startup 0) in
  fst (resolve stubEnv stonksFlags "CCC" (startup 0)) = (Float64 30%float, None, false)
  /\ fst (resolve stubEnv stonksFlags "CCC" w) = (Float64 30%float, None, false)
  /\ map labels ch = [[("symbol", "AAA"); ("name", "AAA")]]
  /\ ~ In [("symbol", "CCC"); ("name", "CCC")] (map labels ch)
  /\ (0 <= length ch <= length (symbols c))%nat.
Proof.
  vm_compute. repeat split; try reflexivity; try lia.
  intros [H|[]]. discriminate H.
Qed.

(** ** A response without a price *)

(** C5: when the response body parses and the [price] field is missing
    or empty, [Quote] prints its message and returns the zero price with
    the error of the parse, which is nil: the caller receives exactly what
    it would for a quote of 0. *)
Theorem Quote_without_price_returns_nil_error
    (env : Env) (symbol apikey : string) (w : World) (d : N) (body : string) :
  let url := twelvedata.twelvedataURL
               (strings.ToUpper (unicode_ToUpper env) symbol) apikey in
  http_Get env (now w) url = (d, inr (inr body)) ->
  json_Unmarshal env body = (None, "") ->
  twelvedata.Quote env symbol apikey w
  = ((0%float, None),
     Println "Price is not included in JSON: <nil>"
             (elapse d (send (HttpGet url) w))).
Proof.
  intros url Hget Hjson. unfold twelvedata.Quote.
  fold url. rewrite Hget, Hjson. reflexivity.
Qed.

Lemma Quote_without_price_returns_nil_error_witness :
  twelvedata.Quote stubEnv "AAPL" "k" (startup 0)
  = ((0%float, None),
     Println "Price is not included in JSON: <nil>"
       (elapse 5 (send (HttpGet (twelvedata.twelvedataURL
                                   (strings.ToUpper (unicode_ToUpper stubEnv) "AAPL") "k"))
                       (startup 0)))).
Proof.
  exact (Quote_without_price_returns_nil_error stubEnv "AAPL" "k" (startup 0) 5 "{}"
           eq_refl eq_refl).
Defined.

(** With the Twelve Data provider and a key, such a response ends up as a
    sample of value 0 and no error is counted. *)
Example Collect_without_price :
  let '(f, ch, w) :=
    Collect stubEnv (twelvedataFlags "k") {| symbols := ["AAPL"] |} (startup 0) in
  f = Next /\ ch = [price_metric "AAPL" 0%float] /\ errorCount w = 0%N.
Proof. vm_compute. repeat split; reflexivity. Qed.

(** ** Construction of the collector *)

(** C3 as specified fails: a present but empty parameter does not give
    zero symbols.  The query [symbols=] gives one symbol, the empty string
    (the one piece that [strings.Split] returns for an empty string), and
    [Collect] asks the provider for it. *)
Lemma empty_parameter_is_one_symbol :
  ~ (exists c, newCollector "symbols=" = (c, None) /\ length (symbols c) = 0%nat)
  /\ upstream (snd (Collect stubEnv stonksFlags (fst (newCollector "symbols=")) (startup 0)))
     = [StonksQuote ""].
Proof.
  split; [|vm_compute; reflexivity].
  intros (c & Hc & Hlen).
  assert (newCollector "symbols=" = ({| symbols := [""] |}, None)) as E
    by (vm_compute; reflexivity).
  rewrite E in Hc. injection Hc as <-. discriminate Hlen.
Qed.

(** C3, as the code has it: construction fails, with the error "missing
    symbols in query", exactly when the query has no [symbols] key.  The
    query [symbols=] has the key: construction succeeds and the collector
    holds one symbol, the empty string, which [Collect] resolves like any
    other: a sample is sent if the provider quotes it, and an error is
    counted otherwise. *)
Theorem newCollector_fails_iff_absent :
  (forall rawQuery,
     (snd (newCollector rawQuery) <> None <-> url.Query rawQuery !! "symbols" = None)
     /\ (snd (newCollector rawQuery) = None
         \/ newCollector rawQuery
            = ({| symbols := [] |}, Some "missing symbols in query")))
  /\ newCollector "symbols=" = ({| symbols := [""] |}, None)
  /\ forall env flags w,
       let w0 := queryCount_Inc w in
       let '(qret, err, _) := fst (resolve env flags "" w0) in
       let '(f, ch, w') := Collect env flags {| symbols := [""] |} w in
       attempted env flags [""] [] w0 = [""]
       /\ match err, qret with
          | None, Float64 price => ch = [price_metric "" price] /\ errorCount w' = errorCount w
          | _, _ => ch = [] /\ errorCount w' = (errorCount w + 1)%N
          end.
Proof.
  split; [|split].
  - intros rawQuery. unfold newCollector, newCollector_values.
    destruct (url.Query rawQuery !! "symbols") as [qvalues|]; cbn.
    + split; [split; congruence | left; reflexivity].
    + split; [split; congruence | right; reflexivity].
  - vm_compute. reflexivity.
  - intros env flags w w0. unfold Collect. cbn [symbols Collect_range attempted].
    fold w0.
    pose proof (Collect_symbol_sample env flags "" [] w0) as Hs.
    pose proof (Collect_symbol_errorCount env flags "" [] w0) as He.
    destruct (fst (resolve env flags "" w0)) as [[qret err] cached].
    destruct (Collect_symbol env flags "" [] w0) as [[f ch] w'].
    assert (errorCount w0 = errorCount w) as Hw0 by reflexivity.
    destruct err as [msg|]; [|destruct qret as [|price]].
    + destruct Hs as [-> ->]. cbn in *. repeat split. lia.
    + destruct Hs as [-> ->]. cbn in *. repeat split. lia.
    + change (strings.ValidString "") with true in Hs. destruct Hs as [-> ->].
      cbn in *. repeat split. lia.
Qed.

(** ** The Twelve Data provider without its key *)

Section NoCredential.

Context (env : Env) (flags : Flags).

Hypothesis enabled : flagEnableTwelvedata flags = true.
Hypothesis unset : flagTwelvedataApiKey flags = "".

Lemma cachedFetcher_unset symbol w :
  cachedFetcher env flags symbol w
  = ((Nil, None),
     Println "Environment variable 'TWELVEDATA_API_KEY' is not set." w).
Proof. unfold cachedFetcher. rewrite enabled, unset. reflexivity. Qed.

(** Without the key a resolution sends nothing and returns the nil value
    with a nil error, from the cache or from the fetcher. *)
Lemma resolve_unset symbol w :
  onlyNil w ->
  let '(qret, err, _, w1) := resolve env flags symbol w in
  qret = Nil /\ err = None /\ upstream w1 = upstream w /\ onlyNil w1.
Proof.
  intros Hnil. unfold resolve, Memoize, gocache.Get.
  destruct (items (cache w) !! symbol) as [it|] eqn:Hit.
  - destruct (gocache.expired (now w) it).
    + rewrite cachedFetcher_unset. cbn. repeat split.
      intros k it'. cbn. unfold gocache.Set_.
      rewrite lookup_insert. case_decide; [intros [= <-]; reflexivity | apply Hnil].
    + repeat split; [exact (Hnil _ _ Hit) | exact Hnil].
  - rewrite cachedFetcher_unset. cbn. repeat split.
    intros k it'. cbn. unfold gocache.Set_.
    rewrite lookup_insert. case_decide; [intros [= <-]; reflexivity | apply Hnil].
Qed.

(** The turn of any symbol counts one error and returns. *)
Lemma Collect_symbol_unset symbol ch w :
  onlyNil w ->
  let '(f, ch', w') := Collect_symbol env flags symbol ch w in
  f = Return /\ ch' = ch /\ errorCount w' = (errorCount w + 1)%N
  /\ upstream w' = upstream w /\ onlyNil w'.
Proof.
  intros Hnil.
  pose proof (resolve_unset symbol w Hnil) as Hr.
  pose proof (resolve_frame env flags symbol w) as Hf.
  unfold Collect_symbol.
  destruct (resolve env flags symbol w) as [[[qret err] cached] w1].
  destruct Hr as (-> & -> & Hup & Hnil1).
  cbn in Hf. destruct Hf as (_ & _ & _ & _ & He & _).
  cbn. repeat split; [lia | exact Hup | exact Hnil1].
Qed.

Lemma step_unset_onlyNil w w' : step env flags w w' -> onlyNil w -> onlyNil w'.
Proof.
  intros [symbol w0 | x w0 | l w0 | w0 | w0 | d w0 | w0 _] Hnil; try exact Hnil.
  - pose proof (resolve_unset symbol w0 Hnil) as H.
    destruct (resolve env flags symbol w0) as [[[qret err] cached] w1].
    apply H.
  - intros k it. rewrite sweep_lookup.
    destruct (items (cache w0) !! k) as [it0|] eqn:Hk; [|discriminate].
    destruct (gocache.expired (now w0) it0); [discriminate|].
    intros [= <-]. exact (Hnil _ _ Hk).
Qed.

Lemma reachable_unset_onlyNil w : reachable env flags w -> onlyNil w.
Proof.
  intros (t & _ & H). revert w H. apply rtc_ind_r.
  - intros k it. cbn. rewrite lookup_empty. discriminate.
  - intros w1 w2 _ Hs IH. exact (step_unset_onlyNil _ _ Hs IH).
Qed.

(** C4, as the code has it: with the Twelve Data provider selected and
    its key unset, the fetcher sends no request and returns the nil value
    with a nil error; the resolution of any symbol gives that nil value,
    which [Collect] counts as invalid quote data.  [Collect] sends no
    sample and no request, and adds one to the error counter for each
    symbol it attempts (so at least one when there is a symbol). *)
Theorem Collect_without_credential (c : collector) (w : World) :
  reachable env flags w ->
  (forall symbol w0,
     cachedFetcher env flags symbol w0
     = ((Nil, None),
        Println "Environment variable 'TWELVEDATA_API_KEY' is not set." w0))
  /\ (forall symbol w0, reachable env flags w0 ->
        exists cached w1, resolve env flags symbol w0 = ((Nil, None, cached), w1))
  /\ let '(f, ch, w') := Collect env flags c w in
     ch = []
     /\ upstream w' = upstream w
     /\ errorCount w'
        = (errorCount w
           + N.of_nat (length (attempted env flags (symbols c) [] (queryCount_Inc w))))%N
     /\ match symbols c with
        | [] => errorCount w' = errorCount w
        | _ :: _ => (errorCount w < errorCount w')%N
        end.
Proof.
  intros Hreach. split; [exact cachedFetcher_unset|]. split.
  - intros symbol w0 H0.
    pose proof (resolve_unset symbol w0 (reachable_unset_onlyNil w0 H0)) as H.
    destruct (resolve env flags symbol w0) as [[[qret err] cached] w1].
    destruct H as (-> & -> & _). exists cached, w1. reflexivity.
  - pose proof (reachable_unset_onlyNil w Hreach) as Hnil.
    unfold Collect. destruct (symbols c) as [|symbol l]; cbn.
    + repeat split. lia.
    + assert (onlyNil (queryCount_Inc w)) as Hnil0 by exact Hnil.
      pose proof (Collect_symbol_unset symbol [] _ Hnil0) as H.
      destruct (Collect_symbol env flags symbol [] (queryCount_Inc w))
        as [[f ch] w'].
      destruct H as (-> & -> & He & Hup & _). cbn in *.
      repeat split; [exact Hup | lia | lia].
Qed.

End NoCredential.

(** C4 as specified fails, both for the explicit error and for the count
    per symbol: for AAA and BBB the resolution of AAA ends with a nil
    error, and the error counter goes up by one, not two. *)
Lemma no_credential_is_a_nil_error :
  let flags := twelvedataFlags "" in
  let c := {| symbols := ["AAA"; "BBB"] |} in
  fst (resolve stubEnv flags "AAA" (queryCount_Inc (startup 0))) = (Nil, None, false)
  /\ errorCount (snd (Collect stubEnv flags c (startup 0)))
     <> (errorCount (startup 0) + N.of_nat (length (symbols c)))%N
  /\ errorCount (snd (Collect stubEnv flags c (startup 0))) = (errorCount (startup 0) + 1)%N.
Proof. vm_compute. repeat split; congruence. Qed.

Lemma Collect_without_credential_witness :
  let flags := twelvedataFlags "" in
  let c := {| symbols := ["AAA"; "BBB"] |} in
  (forall symbol w0,
     cachedFetcher stubEnv flags symbol w0
     = ((Nil, None),
        Println "Environment variable 'TWELVEDATA_API_KEY' is not set." w0))
  /\ (forall symbol w0, reachable stubEnv flags w0 ->
        exists cached w1, resolve stubEnv flags symbol w0 = ((Nil, None, cached), w1))
  /\ let '(f, ch, w') := Collect stubEnv flags c (startup 0) in
     ch = []
     /\ upstream w' = upstream (startup 0)
     /\ errorCount w'
        = (errorCount (startup 0)
           + N.of_nat (length (attempted stubEnv flags (symbols c) []
                                 (queryCount_Inc (startup 0)))))%N
     /\ match symbols c with
        | [] => errorCount w' = errorCount (startup 0)
        | _ :: _ => (errorCount (startup 0) < errorCount w')%N
        end.
Proof.
  exact (Collect_without_credential stubEnv (twelvedataFlags "") eq_refl eq_refl
           {| symbols := ["AAA"; "BBB"] |} (startup 0)
           (startup_reachable stubEnv (twelvedataFlags "") 0 (Z.le_refl 0))).
Defined.

(** * Further properties of the code *)

(** ** [newCollector] *)

Lemma Split_length s sep :
  length (strings.Split s sep) = S (occurrences sep s).
Proof.
  induction s as [|c s IH]; cbn; [reflexivity|].
  destruct (Ascii.eqb c sep); cbn; [rewrite IH; reflexivity|].
  destruct (strings.Split s sep) as [|p ps]; cbn in *; [discriminate|exact IH].
Qed.

Lemma Split_nonempty s sep : strings.Split s sep <> [].
Proof.
  intros H. pose proof (Split_length s sep) as L. rewrite H in L. discriminate.
Qed.

Lemma Split_pieces s sep :
  Forall (fun p => url.contains p sep = false) (strings.Split s sep).
Proof.
  induction s as [|c s IH]; cbn; [repeat constructor|].
  destruct (Ascii.eqb c sep) eqn:E; [constructor; [reflexivity | exact IH]|].
  destruct (strings.Split s sep) as [|p ps]; [repeat constructor; cbn; rewrite E; reflexivity|].
  inversion IH as [|? ? Hp Hps]; subst.
  constructor; [cbn; rewrite E; exact Hp | exact Hps].
Qed.

Lemma append_assoc (a b c : string) : (a ++ b) ++ c = a ++ (b ++ c).
Proof.
  induction a as [|x a IH]; [reflexivity|].
  exact (f_equal (String x) IH).
Qed.

Lemma Join_Split s sep : Join (strings.Split s sep) (String sep "") = s.
Proof.
  induction s as [|c s IH]; cbn; [reflexivity|].
  pose proof (Split_nonempty s sep) as Hne.
  destruct (Ascii.eqb c sep) eqn:E.
  - apply Ascii.eqb_eq in E. subst c.
    destruct (strings.Split s sep) as [|p ps]; [congruence|].
    cbn in *. rewrite IH. reflexivity.
  - destruct (strings.Split s sep) as [|p ps]; [congruence|].
    destruct ps as [|q ps]; cbn in *; rewrite <- IH; reflexivity.
Qed.

Lemma Join_app l1 l2 sep :
  l1 <> [] -> l2 <> [] -> Join (l1 ++ l2) sep = Join l1 sep ++ sep ++ Join l2 sep.
Proof.
  intros H1 H2. induction l1 as [|x l1 IH]; [congruence|].
  destruct l1 as [|y l1].
  - cbn. destruct l2; [congruence | reflexivity].
  - change (Join ((x :: y :: l1) ++ l2) sep)
      with (x ++ sep ++ Join ((y :: l1) ++ l2) sep).
    rewrite IH by discriminate.
    change (Join (x :: y :: l1) sep) with (x ++ sep ++ Join (y :: l1) sep).
    rewrite !append_assoc. reflexivity.
Qed.

Lemma fold_left_append {A B} (f : B -> list A) (l : list B) (acc : list A) :
  fold_left (fun symbols v => (symbols ++ f v)%list) l acc
  = (acc ++ concat (map f l))%list.
Proof.
  revert acc. induction l as [|v l IH]; intros acc; cbn.
  - rewrite app_nil_r. reflexivity.
  - rewrite IH, <- app_assoc. reflexivity.
Qed.

Lemma newCollector_values_symbols q :
  symbols (fst (newCollector_values q))
  = concat (map (fun v => strings.Split v ",") (default [] (q !! "symbols"))).
Proof.
  unfold newCollector_values.
  destruct (q !! "symbols") as [qvalues|]; cbn; [|reflexivity].
  apply (fold_left_append (fun v => strings.Split v ",")).
Qed.

(** X1: the symbols of the collector are the comma-separated pieces of
    the values of the [symbols] parameter, value after value in the order
    of the query; there is one symbol per value and one more per comma. *)
Theorem newCollector_symbols_of_values (q : url.Values) :
  let qvalues := default [] (q !! "symbols") in
  let c := fst (newCollector_values q) in
  symbols c = concat (map (fun v => strings.Split v ",") qvalues)
  /\ length (symbols c)
     = (length qvalues + sum_list (map (occurrences ",") qvalues))%nat.
Proof.
  intros qvalues c. split; [apply newCollector_values_symbols|].
  unfold c. rewrite newCollector_values_symbols. fold qvalues.
  induction qvalues as [|v l IH]; cbn; [reflexivity|].
  rewrite length_app, Split_length, IH. lia.
Qed.

(** Every key of a parsed query has at least one value. *)
Lemma Query_values_nonempty rawQuery k vs :
  url.Query rawQuery !! k = Some vs -> vs <> [].
Proof.
  unfold url.Query.
  assert (forall pieces (m : url.Values),
            (forall k vs, m !! k = Some vs -> vs <> []) ->
            forall k vs, fold_left url.parsePair pieces m !! k = Some vs -> vs <> [])
    as H.
  { induction pieces as [|piece pieces IH]; intros m Hm; cbn; [exact Hm|].
    apply IH. unfold url.parsePair.
    repeat break_match; try exact Hm.
    intros k0 vs0. rewrite lookup_insert. case_decide; [|apply Hm].
    intros [= <-]. intros E. apply app_eq_nil in E. destruct E as [_ E]. discriminate. }
  apply H. intros k0 vs0. rewrite lookup_empty. discriminate.
Qed.

(** X2: a collector that [newCollector] builds without error holds at
    least one symbol, and none of its symbols contains a comma. *)
Theorem newCollector_at_least_one_symbol (rawQuery : string) (c : collector) :
  newCollector rawQuery = (c, None) ->
  symbols c <> []
  /\ Forall (fun symbol => url.contains symbol "," = false) (symbols c).
Proof.
  unfold newCollector. intros H.
  pose proof (newCollector_values_symbols (url.Query rawQuery)) as Hs.
  rewrite H in Hs. cbn in Hs. rewrite Hs. clear Hs.
  unfold newCollector_values in H.
  destruct (url.Query rawQuery !! "symbols") as [qvalues|] eqn:Hq; [|discriminate].
  pose proof (Query_values_nonempty _ _ _ Hq) as Hne. cbn.
  split.
  - destruct qvalues as [|v l]; [congruence|]. cbn.
    pose proof (Split_nonempty v ","). destruct (strings.Split v ","); cbn; congruence.
  - clear H Hq Hne. induction qvalues as [|v l IH]; cbn; [constructor|].
    apply Forall_app. split; [apply Split_pieces | exact IH].
Qed.

Lemma newCollector_at_least_one_symbol_witness :
  symbols {| symbols := ["AAA"; "BBB"] |} <> []
  /\ Forall (fun symbol => url.contains symbol "," = false)
            (symbols {| symbols := ["AAA"; "BBB"] |}).
Proof.
  apply (newCollector_at_least_one_symbol "symbols=AAA,BBB").
  vm_compute. reflexivity.
Defined.

Lemma concat_Split_nonempty v l :
  concat (map (fun v => strings.Split v ",") (v :: l)) <> [].
Proof.
  cbn. pose proof (Split_nonempty v ",").
  destruct (strings.Split v ","); cbn; congruence.
Qed.

(** X3: writing the symbols of the collector one after the other with
    commas gives the values of the [symbols] parameter written one after
    the other with commas: splitting loses nothing but the grouping of
    the symbols into parameters. *)
Theorem newCollector_symbols_join (q : url.Values) :
  Join (symbols (fst (newCollector_values q))) ","
  = Join (default [] (q !! "symbols")) ",".
Proof.
  rewrite newCollector_values_symbols.
  induction (default [] (q !! "symbols")) as [|v l IH]; [reflexivity|].
  destruct l as [|v' l].
  - cbn. rewrite app_nil_r. apply Join_Split.
  - change (concat (map (fun v => strings.Split v ",") (v :: v' :: l)))
      with (strings.Split v "," ++ concat (map (fun v => strings.Split v ",") (v' :: l)))%list.
    rewrite Join_app; [| apply Split_nonempty | apply concat_Split_nonempty].
    rewrite IH, Join_Split. reflexivity.
Qed.

(** ** [twelvedata.Quote] *)

(** X4: whenever [Quote] returns an error the price it returns is 0; and
    when it returns a nil error, the response was read and parsed, and the
    price is either the number that [strconv.ParseFloat] read in a
    non-empty [price] field, or 0 for an empty one. *)
Theorem Quote_results (env : Env) (symbol apikey : string) (w : World) :
  let url := twelvedata.twelvedataURL
               (strings.ToUpper (unicode_ToUpper env) symbol) apikey in
  let '(price, err) := fst (twelvedata.Quote env symbol apikey w) in
  match err with
  | Some _ => price = 0%float
  | None =>
      exists body field,
        snd (http_Get env (now w) url) = inr (inr body)
        /\ json_Unmarshal env body = (None, field)
        /\ (if String.eqb field "" then price = 0%float
            else strconv_ParseFloat env field = inr price)
  end.
Proof.
  intros url. unfold twelvedata.Quote. fold url.
  destruct (http_Get env (now w) url) as [d [e|[e|body]]]; cbn; try reflexivity.
  destruct (json_Unmarshal env body) as [[e|] field] eqn:Hj; cbn; [reflexivity|].
  destruct (String.eqb field "") eqn:Hf; cbn.
  - exists body, field. rewrite Hf. repeat split. exact Hj.
  - destruct (strconv_ParseFloat env field) as [e|p] eqn:Hp; cbn; [reflexivity|].
    exists body, field. rewrite Hf. repeat split; assumption.
Qed.

(** X5: whatever its outcome, [Quote] takes the time its one request takes,
    prints at most one line, and leaves the log, the three metrics and the
    cache as they are; it prints nothing when the request or the reading
    of the body fails, nor when it returns a price that it parsed. *)
Theorem Quote_effects (env : Env) (symbol apikey : string) (w : World) :
  let url := twelvedata.twelvedataURL
               (strings.ToUpper (unicode_ToUpper env) symbol) apikey in
  let '(d, resp) := http_Get env (now w) url in
  let '(price, err, w') := twelvedata.Quote env symbol apikey w in
  now w' = now w + Z.of_N d
  /\ logged w' = logged w /\ queryDuration w' = queryDuration w
  /\ queryCount w' = queryCount w /\ errorCount w' = errorCount w
  /\ cache w' = cache w
  /\ exists lines,
       stdout w' = (stdout w ++ lines)%list /\ (length lines <= 1)%nat
       /\ match resp with
          | inr (inr body) =>
              match json_Unmarshal env body with
              | (None, field) =>
                  String.eqb field "" = false ->
                  strconv_ParseFloat env field = inr price -> lines = []
              | _ => True
              end
          | _ => lines = []
          end.
Proof.
  intros url. unfold twelvedata.Quote. fold url.
  destruct (http_Get env (now w) url) as [d [e|[e|body]]]; cbn.
  - repeat split. exists []. rewrite app_nil_r. repeat split. cbn; lia.
  - repeat split. exists []. rewrite app_nil_r. repeat split. cbn; lia.
  - destruct (json_Unmarshal env body) as [[e|] field]; cbn.
    + repeat split. eexists [_]. repeat split. cbn; lia.
    + destruct (String.eqb field "") eqn:Hf; cbn.
      * repeat split. eexists [_]. repeat split; [cbn; lia | discriminate].
      * destruct (strconv_ParseFloat env field) as [e|p]; cbn.
        -- repeat split. eexists [_]. repeat split; [cbn; lia | discriminate].
        -- repeat split. exists []. rewrite app_nil_r. repeat split. cbn; lia.
Qed.

(** ** [Collect]: what is sent, logged and requested *)

Section CollectRuns.

Context (env : Env) (flags : Flags).

Lemma Collect_range_samples l : forall ch w,
  let '(f, ch', _) := Collect_range env flags l ch w in
  exists prices,
    ch' = (ch ++ zip_with price_metric (take (length prices) l) prices)%list
    /\ (length prices <= length l)%nat
    /\ (f = Next <-> length prices = length l).
Proof.
  induction l as [|symbol l IH]; intros ch w; cbn.
  - exists []. rewrite app_nil_r. repeat split; cbn; intros; first [lia | reflexivity].
  - pose proof (Collect_symbol_sample env flags symbol ch w) as Hs.
    destruct (fst (resolve env flags symbol w)) as [[qret err] cached].
    destruct (Collect_symbol env flags symbol ch w) as [[f ch1] w1].
    assert (f <> Next /\ ch1 = ch \/
            exists price, f = Next /\ ch1 = (ch ++ [price_metric symbol price])%list)
      as [[Hf ->] | (price & -> & ->)].
    { destruct err as [msg|]; [left; destruct Hs as [-> ->]; split; [discriminate|reflexivity]|].
      destruct qret as [|price]; [left; destruct Hs as [-> ->]; split; [discriminate|reflexivity]|].
      destruct (strings.ValidString symbol); [right; exists price; exact Hs | left; exact Hs]. }
    + destruct f; [congruence| |];
        (exists []; rewrite app_nil_r; repeat split; cbn; intros; first [lia | congruence]).
    + specialize (IH (ch ++ [price_metric symbol price])%list w1).
      destruct (Collect_range env flags l (ch ++ [price_metric symbol price]) w1)
        as [[f' ch'] w'].
      destruct IH as (prices & -> & Hlen & Hiff).
      exists (price :: prices). cbn. rewrite <- app_assoc. cbn.
      repeat split; [lia | | ]; intros H; [apply Hiff in H; lia | apply Hiff; lia].
Qed.

(** X6: the samples that [Collect] sends are those of the first symbols of
    the collector, one each and in their order; each is the gauge
    [quotes_exporter_price] whose labels [symbol] and [name] both carry
    the symbol. *)
Theorem Collect_samples_of_first_symbols (c : collector) (w : World) :
  let '(_, ch, _) := Collect env flags c w in
  exists prices,
    (length prices <= length (symbols c))%nat
    /\ ch = zip_with price_metric (take (length prices) (symbols c)) prices
    /\ Forall (fun m => fqName m = "quotes_exporter_price"
                        /\ exists symbol,
                             labels m = [("symbol", symbol); ("name", symbol)])
              ch.
Proof.
  unfold Collect.
  pose proof (Collect_range_samples (symbols c) [] (queryCount_Inc w)) as H.
  destruct (Collect_range env flags (symbols c) [] (queryCount_Inc w))
    as [[f ch] w'].
  destruct H as (prices & -> & Hlen & _). cbn.
  exists prices. split; [exact Hlen|]. split; [reflexivity|].
  generalize (take (length prices) (symbols c)). intros l.
  revert prices Hlen. induction l as [|s l IH]; intros [|p prices] Hlen; cbn;
    try constructor.
  - split; [reflexivity | exists s; reflexivity].
  - apply (IH prices). cbn in Hlen. lia.
Qed.

(** X7: [Collect] runs through the whole loop exactly when it has sent one
    sample for every symbol of the collector; it then has counted no
    error. *)
Theorem Collect_completes_iff_all_sampled (c : collector) (w : World) :
  let '(f, ch, w') := Collect env flags c w in
  (f = Next <-> length ch = length (symbols c))
  /\ (length ch <= length (symbols c))%nat
  /\ (f = Next -> errorCount w' = errorCount w).
Proof.
  unfold Collect.
  pose proof (Collect_range_samples (symbols c) [] (queryCount_Inc w)) as H.
  pose proof (Collect_range_errorCount env flags (symbols c) [] (queryCount_Inc w)) as He.
  destruct (Collect_range env flags (symbols c) [] (queryCount_Inc w))
    as [[f ch] w'].
  destruct H as (prices & -> & Hlen & Hiff). cbn [app].
  assert (length (zip_with price_metric (take (length prices) (symbols c)) prices)
          = length prices) as L.
  { rewrite length_zip_with, length_take. lia. }
  rewrite L. split; [exact Hiff|]. split; [exact Hlen|].
  intros ->. cbn in He. lia.
Qed.

Lemma Collect_symbol_logged symbol ch w :
  exists e, logged (snd (Collect_symbol env flags symbol ch w))
            = (logged w ++ [e])%list
            /\ entrySymbol e = symbol.
Proof.
  unfold Collect_symbol.
  pose proof (resolve_frame env flags symbol w) as H.
  destruct (resolve env flags symbol w) as [[[qret err] cached] w1].
  cbn in H. destruct H as (_ & H & _).
  repeat break_match; cbn; rewrite H; eexists; split; reflexivity.
Qed.

(** X8: [Collect] writes one log line for each symbol it attempts, about
    that symbol and in the order of the attempts, whatever the outcomes;
    it writes no other line. *)
Theorem Collect_logs_every_attempt (c : collector) (w : World) :
  exists entries,
    logged (snd (Collect env flags c w)) = (logged w ++ entries)%list
    /\ map entrySymbol entries
       = attempted env flags (symbols c) [] (queryCount_Inc w).
Proof.
  unfold Collect.
  change (logged w) with (logged (queryCount_Inc w)).
  generalize (queryCount_Inc w) as w0. generalize (@nil Metric) as ch.
  induction (symbols c) as [|symbol l IH]; intros ch w0; cbn.
  - exists []. rewrite app_nil_r. split; reflexivity.
  - destruct (Collect_symbol_logged symbol ch w0) as (e & He & Hsym).
    destruct (Collect_symbol env flags symbol ch w0) as [[f ch1] w1]. cbn in He.
    destruct f; cbn;
      try (exists [e]; split; [exact He | cbn; rewrite Hsym; reflexivity]).
    destruct (IH ch1 w1) as (entries & Hl & Hm).
    exists (e :: entries). split.
    + rewrite Hl, He, <- app_assoc. reflexivity.
    + cbn. rewrite Hsym, Hm. reflexivity.
Qed.

End CollectRuns.

(** ** [Collect]: the requests it sends *)

Lemma Quote_upstream env symbol apikey w :
  upstream (snd (twelvedata.Quote env symbol apikey w))
  = (upstream w
     ++ [HttpGet (twelvedata.twelvedataURL
                    (strings.ToUpper (unicode_ToUpper env) symbol) apikey)])%list.
Proof. unfold twelvedata.Quote. repeat break_match; reflexivity. Qed.

Section Requests.

Context (env : Env) (flags : Flags).

Lemma cachedFetcher_upstream symbol w :
  exists calls,
    upstream (snd (cachedFetcher env flags symbol w)) = (upstream w ++ calls)%list
    /\ (length calls <= 1)%nat
    /\ Forall (ofSelectedProvider flags) calls.
Proof.
  unfold cachedFetcher.
  destruct (flagEnableTwelvedata flags) eqn:Hen.
  - destruct (String.eqb _ _).
    + exists []. cbn. rewrite app_nil_r. repeat split; [cbn; lia | constructor].
    + pose proof (Quote_upstream env symbol (flagTwelvedataApiKey flags) w) as H.
      destruct (twelvedata.Quote _ _ _ _) as [[price err] w']. cbn in *.
      eexists [_]. split; [exact H|]. split; [cbn; lia|].
      repeat constructor; [exact Hen | eexists; reflexivity].
  - destruct (stonks_Quote env (now w) symbol) as [d [price err]]. cbn.
    eexists [_]. split; [reflexivity|]. split; [cbn; lia|].
    repeat constructor. exact Hen.
Qed.

Lemma resolve_upstream symbol w :
  exists calls,
    upstream (snd (resolve env flags symbol w)) = (upstream w ++ calls)%list
    /\ (length calls <= 1)%nat
    /\ Forall (ofSelectedProvider flags) calls
    /\ (snd (fst (resolve env flags symbol w)) = true -> calls = []).
Proof.
  unfold resolve, Memoize.
  destruct (gocache.Get _ _ _) as [value found].
  destruct found; cbn.
  - exists []. rewrite app_nil_r. repeat split; [cbn; lia | constructor].
  - destruct (cachedFetcher_upstream symbol w) as (calls & Hc & Hl & Hf).
    destruct (cachedFetcher env flags symbol w) as [[data innerErr] w1].
    cbn in Hc. exists calls.
    destruct innerErr; cbn; repeat split; try assumption; discriminate.
Qed.

Lemma Collect_symbol_upstream symbol ch w :
  upstream (snd (Collect_symbol env flags symbol ch w))
  = upstream (snd (resolve env flags symbol w)).
Proof.
  unfold Collect_symbol.
  destruct (resolve env flags symbol w) as [[[qret err] cached] w1].
  repeat break_match; reflexivity.
Qed.

(** X9: the requests that [Collect] sends are added after the earlier
    ones; there is at most one per attempted symbol, and each goes to the
    provider that the flags select: [stonks] when Twelve Data is disabled,
    and otherwise the Twelve Data URL with the configured key. *)
Theorem Collect_requests (c : collector) (w : World) :
  exists calls,
    upstream (snd (Collect env flags c w)) = (upstream w ++ calls)%list
    /\ (length calls
        <= length (attempted env flags (symbols c) [] (queryCount_Inc w)))%nat
    /\ Forall (ofSelectedProvider flags) calls.
Proof.
  unfold Collect.
  change (upstream w) with (upstream (queryCount_Inc w)).
  generalize (queryCount_Inc w) as w0. generalize (@nil Metric) as ch.
  induction (symbols c) as [|symbol l IH]; intros ch w0; cbn.
  - exists []. rewrite app_nil_r. repeat split; [cbn; lia | constructor].
  - destruct (resolve_upstream symbol w0) as (calls & Hc & Hl & Hf & _).
    rewrite <- Collect_symbol_upstream with (ch := ch) in Hc.
    destruct (Collect_symbol env flags symbol ch w0) as [[f ch1] w1]. cbn in Hc.
    destruct f; cbn;
      try (exists calls; repeat split; [exact Hc | lia | exact Hf]).
    destruct (IH ch1 w1) as (calls' & Hc' & Hl' & Hf').
    exists (calls ++ calls')%list. split; [|split].
    + rewrite Hc', Hc, <- app_assoc. reflexivity.
    + rewrite length_app. lia.
    + apply Forall_app. split; assumption.
Qed.

(** ** The memoizer under [Collect] *)

Lemma expired_later t t' it :
  t <= t' -> gocache.expired t it = true -> gocache.expired t' it = true.
Proof.
  unfold gocache.expired. intros Ht H.
  apply andb_true_iff in H. destruct H as [H1 H2].
  apply andb_true_iff. split; [exact H1|].
  apply Z.ltb_lt in H2. apply Z.ltb_lt. lia.
Qed.

(** X10: a resolution that ends with an error has gone to the provider
    and stores nothing: the cache is as it was.  A later resolution of the
    symbol, as long as nothing has been stored for it, is not answered from
    the cache either: the fetcher runs again. *)
Theorem resolve_error_is_not_cached
    (symbol : string) (w w1 : World) (v : any) (msg : error) (cached : bool) :
  resolve env flags symbol w = ((v, Some msg, cached), w1) ->
  cached = false
  /\ cache w1 = cache w
  /\ forall w2,
       items (cache w2) !! symbol = items (cache w) !! symbol ->
       now w <= now w2 ->
       resolve env flags symbol w2
       = (let '(r, w') := cachedFetcher env flags symbol w2 in
          (r, false,
           match snd r with
           | None =>
               setItems (gocache.Set_ (items (cache w')) (now w') symbol (fst r)
                                      (defaultExpiration (cache w'))) w'
           | Some _ => w'
           end)).
Proof.
  unfold resolve, Memoize, gocache.Get. intros H.
  assert (match items (cache w) !! symbol with
          | Some it => gocache.expired (now w) it = true
          | None => True
          end) as Hmiss.
  { destruct (items (cache w) !! symbol) as [it|]; [|exact I].
    destruct (gocache.expired (now w) it); [reflexivity | discriminate H]. }
  assert (cached = false /\ cache w1 = cache w) as [-> Hc].
  { destruct (items (cache w) !! symbol) as [it|].
    - rewrite Hmiss in H.
      pose proof (cachedFetcher_outbound env flags symbol w) as Hout.
      destruct (cachedFetcher env flags symbol w) as [[data innerErr] w0].
      destruct Hout as (_ & _ & _ & _ & _ & Hc). cbn in Hc.
      destruct innerErr; inversion H; subst; split; [reflexivity | exact Hc].
    - pose proof (cachedFetcher_outbound env flags symbol w) as Hout.
      destruct (cachedFetcher env flags symbol w) as [[data innerErr] w0].
      destruct Hout as (_ & _ & _ & _ & _ & Hc). cbn in Hc.
      destruct innerErr; inversion H; subst; split; [reflexivity | exact Hc]. }
  split; [reflexivity|]. split; [exact Hc|].
  intros w2 Hsame Hlater. rewrite Hsame.
  destruct (items (cache w) !! symbol) as [it|].
  - rewrite (expired_later _ _ _ Hlater Hmiss).
    destruct (cachedFetcher env flags symbol w2) as [[data innerErr] w']. reflexivity.
  - destruct (cachedFetcher env flags symbol w2) as [[data innerErr] w']. reflexivity.
Qed.

End Requests.

Lemma resolve_error_is_not_cached_witness :
  let w := startup 0 in
  let w1 := snd (resolve stubEnv stonksFlags "BBB" w) in
  false = false
  /\ cache w1 = cache w
  /\ forall w2,
       items (cache w2) !! "BBB" = items (cache w) !! "BBB" ->
       now w <= now w2 ->
       resolve stubEnv stonksFlags "BBB" w2
       = (let '(r, w') := cachedFetcher stubEnv stonksFlags "BBB" w2 in
          (r, false,
           match snd r with
           | None =>
               setItems (gocache.Set_ (items (cache w')) (now w') "BBB" (fst r)
                                      (defaultExpiration (cache w'))) w'
           | Some _ => w'
           end)).
Proof.
  exact (resolve_error_is_not_cached stubEnv stonksFlags "BBB" (startup 0)
           (snd (resolve stubEnv stonksFlags "BBB" (startup 0)))
           (Float64 0%float) "no quote" false eq_refl).
Defined.

(** ** A scrape answered from the cache *)

Section FromCache.

Context (env : Env) (flags : Flags).

Lemma resolve_cachedPrice symbol p w :
  cachedPrice w symbol p ->
  resolve env flags symbol w = ((Float64 p, None, true), w).
Proof.
  intros (it & Hit & Hobj & Hfresh).
  rewrite (resolve_hit env flags symbol w it Hit Hfresh), Hobj. reflexivity.
Qed.

Lemma Collect_range_from_cache l : forall prices ch w,
  Forall2 (cachedPrice w) l prices ->
  Forall (fun symbol => strings.ValidString symbol = true) l ->
  let '(f, ch', w') := Collect_range env flags l ch w in
  f = Next
  /\ ch' = (ch ++ zip_with price_metric l prices)%list
  /\ quiet w w'
  /\ logged w'
     = (logged w ++ zip_with (fun s p => LogRetrieved s true p) l prices)%list
  /\ length (queryDuration w') = (length (queryDuration w) + length l)%nat.
Proof.
  induction l as [|symbol l IH]; intros prices ch w Hc Hv.
  - inversion Hc; subst. cbn. rewrite !app_nil_r.
    repeat split; lia.
  - inversion Hc as [|? p ? prices' Hp Hrest]; subst.
    inversion Hv as [|? ? Hvs Hvl]; subst.
    cbn [Collect_range]. unfold Collect_symbol, MustNewConstMetric.
    rewrite (resolve_cachedPrice symbol p w Hp). cbn. rewrite Hvs.
    set (w1 := Printf _ (Observe _ w)).
    assert (Forall2 (cachedPrice w1) l prices') as Hc1 by exact Hrest.
    specialize (IH prices' (ch ++ [price_metric symbol p])%list w1 Hc1 Hvl).
    fold (price_metric symbol p).
    destruct (Collect_range env flags l (ch ++ [price_metric symbol p]) w1)
      as [[f ch'] w'].
    destruct IH as (-> & -> & Hq & Hlog & Hdur).
    split; [reflexivity|]. split; [rewrite <- app_assoc; reflexivity|].
    split; [exact Hq|]. split.
    + rewrite Hlog. unfold w1. cbn. rewrite <- app_assoc. reflexivity.
    + rewrite Hdur. unfold w1. cbn. rewrite length_app. cbn. lia.
Qed.

(** X11: when the cache holds an unexpired price for every symbol of the
    collector (and the symbols are valid label values), [Collect] sends
    one sample per symbol with the cached price, in the order of the
    symbols, and logs each as retrieved from the cache; it sends no
    request, takes no time, prints nothing, counts no error and leaves
    the cache as it is. *)
Theorem Collect_from_cache (c : collector) (prices : list float64) (w : World) :
  Forall2 (cachedPrice w) (symbols c) prices ->
  Forall (fun symbol => strings.ValidString symbol = true) (symbols c) ->
  let '(f, ch, w') := Collect env flags c w in
  f = Next
  /\ ch = zip_with price_metric (symbols c) prices
  /\ now w' = now w /\ upstream w' = upstream w /\ stdout w' = stdout w
  /\ errorCount w' = errorCount w /\ cache w' = cache w
  /\ logged w'
     = (logged w
        ++ zip_with (fun s p => LogRetrieved s true p) (symbols c) prices)%list.
Proof.
  intros Hc Hv. unfold Collect.
  pose proof (Collect_range_from_cache (symbols c) prices [] (queryCount_Inc w) Hc Hv) as H.
  destruct (Collect_range env flags (symbols c) [] (queryCount_Inc w))
    as [[f ch] w'].
  destruct H as (-> & -> & (H1 & H2 & H3 & H4 & H5) & Hlog & _).
  repeat split; assumption.
Qed.

End FromCache.

Lemma Collect_from_cache_witness :
  let c := {| symbols := ["AAA"; "CCC"] |} in
  let w := snd (Collect stubEnv stonksFlags c (startup 0)) in
  let '(f, ch, w') := Collect stubEnv stonksFlags c w in
  f = Next
  /\ ch = zip_with price_metric (symbols c) [10%float; 30%float]
  /\ now w' = now w /\ upstream w' = upstream w /\ stdout w' = stdout w
  /\ errorCount w' = errorCount w /\ cache w' = cache w
  /\ logged w'
     = (logged w
        ++ zip_with (fun s p => LogRetrieved s true p) (symbols c)
                    [10%float; 30%float])%list.
Proof.
  apply (Collect_from_cache stubEnv stonksFlags {| symbols := ["AAA"; "CCC"] |}
           [10%float; 30%float]).
  - repeat constructor.
    + eexists. split; [vm_compute; reflexivity|]. split; reflexivity.
    + eexists. split; [vm_compute; reflexivity|]. split; reflexivity.
  - repeat constructor.
Defined.

(** ** What the cache holds in a running exporter *)

Section Stored.

Context (env : Env) (flags : Flags).

Lemma step_boundedExpiry w w' :
  step env flags w w' ->
  defaultExpiration (cache w) = 10 * Minute -> 0 <= now w ->
  boundedExpiry w -> boundedExpiry w'.
Proof.
  intros Hs Hd Hpos Hb. unfold boundedExpiry in *.
  destruct Hs as [symbol w0 | x w0 | l w0 | w0 | w0 | d w0 | w0 _]; try exact Hb.
  - unfold resolve, Memoize.
    destruct (gocache.Get _ _ _) as [value found].
    destruct found; [exact Hb|].
    pose proof (cachedFetcher_outbound env flags symbol w0) as Hout.
    destruct (cachedFetcher env flags symbol w0) as [[data innerErr] w1].
    destruct Hout as (Hnow & _ & _ & _ & _ & Hc). cbn in Hnow, Hc.
    destruct innerErr; cbn; intros k it.
    + rewrite Hc. intros Hk. specialize (Hb k it Hk). lia.
    + rewrite Hc, Hd. change (0 <? 10 * Minute) with true. cbn iota.
      unfold gocache.Set_. rewrite lookup_insert. case_decide.
      * intros [= <-]. cbn. unfold Minute. lia.
      * intros Hk. specialize (Hb k it Hk). lia.
  - intros k it Hk. specialize (Hb k it Hk). cbn. lia.
  - intros k it. rewrite sweep_lookup.
    destruct (items (cache w0) !! k) as [it0|] eqn:Hk; [|discriminate].
    destruct (gocache.expired (now w0) it0); [discriminate|].
    intros [= <-]. cbn. exact (Hb _ _ Hk).
Qed.

Lemma reachable_boundedExpiry w : reachable env flags w -> boundedExpiry w.
Proof.
  intros (t & Ht & H).
  cut (boundedExpiry w /\ reachable env flags w); [tauto|].
  revert w H. apply rtc_ind_r.
  - split; [|exists t; split; [exact Ht | apply rtc_refl]].
    intros k it. cbn. rewrite lookup_empty. discriminate.
  - intros w1 w2 Hsteps Hs [IH Hr]. split.
    + destruct (reachable_config env flags w1 Hr) as (Hd & _ & Hc).
      apply (step_boundedExpiry _ _ Hs Hd); [lia | exact IH].
    + exists t. split; [exact Ht|]. eapply rtc_r; eassumption.
Qed.

(** X12: in a running exporter, a resolution that is answered from the
    cache changes nothing and returns a stored value whose expiry lies
    between now and ten minutes from now: the value was fetched at most
    ten minutes earlier. *)
Theorem cached_answers_are_recent
    (symbol : string) (w w1 : World) (v : any) (err : option error) :
  reachable env flags w ->
  resolve env flags symbol w = ((v, err, true), w1) ->
  err = None /\ w1 = w
  /\ exists it,
       items (cache w) !! symbol = Some it
       /\ gocache.Object it = v
       /\ now w <= gocache.Expiration it <= now w + 10 * Minute.
Proof.
  intros Hr H.
  pose proof (reachable_boundedExpiry w Hr) as Hb.
  unfold resolve, Memoize, gocache.Get in H.
  destruct (items (cache w) !! symbol) as [it|] eqn:Hit.
  - destruct (gocache.expired (now w) it) eqn:He.
    + destruct (cachedFetcher env flags symbol w) as [[data innerErr] w0].
      discriminate H.
    + injection H as <- <- <-. split; [reflexivity|]. split; [reflexivity|].
      exists it. split; [reflexivity|]. split; [reflexivity|].
      specialize (Hb _ _ Hit). unfold gocache.expired in He.
      apply andb_false_iff in He. destruct He as [He|He].
      * apply Z.ltb_ge in He. lia.
      * apply Z.ltb_ge in He. lia.
  - destruct (cachedFetcher env flags symbol w) as [[data innerErr] w0].
    discriminate H.
Qed.

(** Unless Twelve Data is selected without its key, the fetcher returns a
    boxed [float64]. *)
Hypothesis provider_usable :
  flagEnableTwelvedata flags = false \/ flagTwelvedataApiKey flags <> "".

Lemma cachedFetcher_float symbol w :
  exists p, fst (fst (cachedFetcher env flags symbol w)) = Float64 p.
Proof.
  unfold cachedFetcher.
  destruct (flagEnableTwelvedata flags).
  - destruct (String.eqb _ _) eqn:E.
    + apply String.eqb_eq in E. destruct provider_usable; congruence.
    + destruct (twelvedata.Quote _ _ _ _) as [[price err] w']. eexists; reflexivity.
  - destruct (stonks_Quote env (now w) symbol) as [d [price err]]. eexists; reflexivity.
Qed.

Lemma step_neverNil w w' : step env flags w w' -> neverNil w -> neverNil w'.
Proof.
  intros Hs Hn. unfold neverNil in *.
  destruct Hs as [symbol w0 | x w0 | l w0 | w0 | w0 | d w0 | w0 _]; try exact Hn.
  - unfold resolve, Memoize.
    destruct (gocache.Get _ _ _) as [value found].
    destruct found; [exact Hn|].
    pose proof (cachedFetcher_outbound env flags symbol w0) as Hout.
    destruct (cachedFetcher_float symbol w0) as (p & Hp).
    destruct (cachedFetcher env flags symbol w0) as [[data innerErr] w1].
    destruct Hout as (_ & _ & _ & _ & _ & Hc). cbn in Hc, Hp. subst data.
    destruct innerErr; cbn; intros k it; rewrite Hc; [apply Hn|].
    unfold gocache.Set_. rewrite lookup_insert. case_decide; [|apply Hn].
    intros [= <-]. discriminate.
  - intros k it. rewrite sweep_lookup.
    destruct (items (cache w0) !! k) as [it0|] eqn:Hk; [|discriminate].
    destruct (gocache.expired (now w0) it0); [discriminate|].
    intros [= <-]. exact (Hn _ _ Hk).
Qed.

Lemma reachable_neverNil w : reachable env flags w -> neverNil w.
Proof.
  intros (t & _ & H). revert w H. apply rtc_ind_r.
  - intros k it. cbn. rewrite lookup_empty. discriminate.
  - intros w1 w2 _ Hs IH. exact (step_neverNil _ _ Hs IH).
Qed.

(** X13: unless Twelve Data is selected without its key, every resolution
    in a running exporter yields a [float64], so that the type assertion
    of [Collect] never fails: a turn of the loop counts an error exactly
    when the resolution returned an error, and it never logs invalid
    quote data. *)
Theorem assertion_never_fails (symbol : string) (ch : list Metric) (w : World) :
  reachable env flags w ->
  let '(qret, err, _) := fst (resolve env flags symbol w) in
  let '(_, _, w') := Collect_symbol env flags symbol ch w in
  (exists p, qret = Float64 p)
  /\ (errorCount w' = (errorCount w + 1)%N <-> err <> None)
  /\ (errorCount w' = errorCount w <-> err = None)
  /\ forall s q, last (logged w') <> Some (LogInvalid s q).
Proof.
  intros Hr. pose proof (reachable_neverNil w Hr) as Hn.
  assert (exists p, fst (fst (fst (resolve env flags symbol w))) = Float64 p) as Hf.
  { unfold resolve, Memoize, gocache.Get.
    destruct (items (cache w) !! symbol) as [it|] eqn:Hit.
    - destruct (gocache.expired (now w) it).
      + destruct (cachedFetcher_float symbol w) as (p & Hp).
        destruct (cachedFetcher env flags symbol w) as [[data innerErr] w0].
        exists p. exact Hp.
      + specialize (Hn _ _ Hit). cbn.
        destruct (gocache.Object it) as [|p]; [congruence | exists p; reflexivity].
    - destruct (cachedFetcher_float symbol w) as (p & Hp).
      destruct (cachedFetcher env flags symbol w) as [[data innerErr] w0].
      exists p. exact Hp. }
  unfold Collect_symbol, MustNewConstMetric.
  pose proof (resolve_frame env flags symbol w) as Hfr.
  destruct (resolve env flags symbol w) as [[[qret err] cached] w1].
  cbn in Hf, Hfr. destruct Hfr as (_ & _ & _ & _ & He & _).
  destruct Hf as (p & ->). cbn.
  destruct err as [msg|]; cbn.
  - split; [exists p; reflexivity|]. rewrite He.
    split; [split; [discriminate | reflexivity]|].
    split; [split; [lia | discriminate]|].
    intros s q. rewrite last_snoc. discriminate.
  - destruct (strings.ValidString symbol); cbn;
      (split; [exists p; reflexivity|]); rewrite He;
      (split; [split; [lia | congruence]|]);
      (split; [split; reflexivity|]);
      intros s q; rewrite last_snoc; discriminate.
Qed.

End Stored.

Lemma hit_after_miss_reachable :
  reachable stubEnv stonksFlags (snd (resolve stubEnv stonksFlags "AAA" (startup 0))).
Proof.
  exists 0. split; [lia|]. apply rtc_once. apply step_resolve.
Qed.

Lemma cached_answers_are_recent_witness :
  let w := snd (resolve stubEnv stonksFlags "AAA" (startup 0)) in
  @None error = None /\ w = w
  /\ exists it,
       items (cache w) !! "AAA" = Some it
       /\ gocache.Object it = Float64 10%float
       /\ now w <= gocache.Expiration it <= now w + 10 * Minute.
Proof.
  exact (cached_answers_are_recent stubEnv stonksFlags "AAA"
           (snd (resolve stubEnv stonksFlags "AAA" (startup 0)))
           (snd (resolve stubEnv stonksFlags "AAA" (startup 0)))
           (Float64 10%float) None hit_after_miss_reachable eq_refl).
Defined.

Lemma assertion_never_fails_witness :
  let w := startup 0 in
  let '(qret, err, _) := fst (resolve stubEnv stonksFlags "BBB" w) in
  let '(_, _, w') := Collect_symbol stubEnv stonksFlags "BBB" [] w in
  (exists p, qret = Float64 p)
  /\ (errorCount w' = (errorCount w + 1)%N <-> err <> None)
  /\ (errorCount w' = errorCount w <-> err = None)
  /\ forall s q, last (logged w') <> Some (LogInvalid s q).
Proof.
  exact (assertion_never_fails stubEnv stonksFlags (or_introl eq_refl) "BBB" []
           (startup 0) (startup_reachable stubEnv stonksFlags 0 (Z.le_refl 0))).
Defined.

(** ** [Describe] *)



(** ** Counters and records over a run *)

Lemma Quote_stdout env symbol apikey w :
  stdout w `prefix_of` stdout (snd (twelvedata.Quote env symbol apikey w)).
Proof.
  unfold twelvedata.Quote.
  repeat break_match; cbn;
    first [ exists []; rewrite app_nil_r; reflexivity | eexists; reflexivity ].
Qed.

Section Monotone.

Context (env : Env) (flags : Flags).

Lemma cachedFetcher_stdout symbol w :
  stdout w `prefix_of` stdout (snd (cachedFetcher env flags symbol w)).
Proof.
  unfold cachedFetcher.
  destruct (flagEnableTwelvedata flags).
  - destruct (String.eqb _ _); [eexists; reflexivity|].
    pose proof (Quote_stdout env symbol (flagTwelvedataApiKey flags) w) as H.
    destruct (twelvedata.Quote _ _ _ _) as [[price err] w']. exact H.
  - destruct (stonks_Quote env (now w) symbol) as [d [price err]].
    exists []. cbn. rewrite app_nil_r. reflexivity.
Qed.

Lemma resolve_stdout symbol w :
  stdout w `prefix_of` stdout (snd (resolve env flags symbol w)).
Proof.
  unfold resolve, Memoize.
  destruct (gocache.Get _ _ _) as [value found].
  destruct found; [reflexivity|].
  pose proof (cachedFetcher_stdout symbol w) as H.
  destruct (cachedFetcher env flags symbol w) as [[data innerErr] w1].
  destruct innerErr; exact H.
Qed.

Lemma grows_refl w : grows w w.
Proof. unfold grows. repeat split; reflexivity || lia. Qed.

Lemma grows_trans w1 w2 w3 : grows w1 w2 -> grows w2 w3 -> grows w1 w3.
Proof.
  unfold grows.
  intros (A1 & A2 & A3 & A4 & A5 & A6 & A7) (B1 & B2 & B3 & B4 & B5 & B6 & B7).
  repeat split; try lia; etransitivity; eassumption.
Qed.

Lemma step_grows w w' : step env flags w w' -> grows w w'.
Proof.
  intros [symbol w0 | x w0 | l w0 | w0 | w0 | d w0 | w0 _]; unfold grows; cbn;
    try (repeat split; first [lia | reflexivity | eexists; reflexivity]).
  pose proof (resolve_frame env flags symbol w0) as (H1 & H2 & H3 & H4 & H5 & _).
  destruct (resolve_upstream env flags symbol w0) as (calls & Hc & _).
  pose proof (resolve_stdout symbol w0) as Hs.
  repeat split; try lia; try (rewrite ?H2, ?H3; reflexivity);
    [exists calls; exact Hc | exact Hs].
Qed.

(** X15: over any run of the exporter, whatever the providers answer, the
    clock and the two counters never go down, and the requests sent, the
    lines printed, the lines logged and the durations observed are only
    ever added to: what was recorded stays, in its order. *)
Theorem run_only_adds (w w' : World) :
  rtc (step env flags) w w' -> grows w w'.
Proof.
  induction 1 as [|w0 w1 w2 Hs _ IH]; [apply grows_refl|].
  eapply grows_trans; [apply step_grows; exact Hs | exact IH].
Qed.

(** X16: from scrape to scrape, the failures counted never outnumber the
    invocations counted: between any two instants of the life of an
    exporter the error counter goes up by at most as much as the query
    counter. *)
Theorem failures_within_queries (w w' : World) :
  rtc (scrape env flags) w w' ->
  (queryCount w <= queryCount w')%N
  /\ (errorCount w <= errorCount w')%N
  /\ (errorCount w' - errorCount w <= queryCount w' - queryCount w)%N.
Proof.
  induction 1 as [|w0 w1 w2 Hs _ IH]; [repeat split; lia|].
  assert (queryCount w0 <= queryCount w1
          /\ errorCount w0 <= errorCount w1
          /\ errorCount w1 - errorCount w0 <= queryCount w1 - queryCount w0)%N
    as Hstep.
  { destruct Hs as [c w0 | d w0 | w0 _]; [|cbn; repeat split; lia ..].
    unfold Collect.
    pose proof (Collect_range_queryCount env flags (symbols c) [] (queryCount_Inc w0)) as Hq.
    pose proof (Collect_range_errorCount env flags (symbols c) [] (queryCount_Inc w0)) as He.
    destruct (Collect_range env flags (symbols c) [] (queryCount_Inc w0))
      as [[f ch] w']. cbn in *.
    destruct f; cbn in He; repeat split; lia. }
  lia.
Qed.

End Monotone.

Lemma run_only_adds_witness :
  grows (startup 0) (snd (Collect stubEnv stonksFlags {| symbols := ["AAA"; "BBB"] |} (startup 0))).
Proof.
  apply (run_only_adds stubEnv stonksFlags). apply Collect_steps.
Defined.

Lemma failures_within_queries_witness :
  let w := startup 0 in
  let w' := snd (Collect stubEnv stonksFlags {| symbols := ["AAA"; "BBB"] |} w) in
  (queryCount w <= queryCount w')%N
  /\ (errorCount w <= errorCount w')%N
  /\ (errorCount w' - errorCount w <= queryCount w' - queryCount w)%N.
Proof.
  apply (failures_within_queries stubEnv stonksFlags).
  apply rtc_once. apply scrape_Collect.
Defined.

(** ** The symbols that reach the provider *)

Section Asked.

Context (env : Env) (flags : Flags).



(** X18: the symbols that [Collect] attempts are those it has sent a
    sample for, and one more when it did not run through the whole loop:
    the symbol whose turn ended the invocation. *)
Theorem Collect_attempts_and_samples (c : collector) (w : World) :
  let '(f, ch, _) := Collect env flags c w in
  length (attempted env flags (symbols c) [] (queryCount_Inc w))
  = (length ch + match f with Next => 0 | _ => 1 end)%nat
  /\ attempted env flags (symbols c) [] (queryCount_Inc w)
     = take (length ch + match f with Next => 0 | _ => 1 end) (symbols c).
Proof.
  unfold Collect.
  assert (forall l ch w0,
            let '(f, ch', _) := Collect_range env flags l ch w0 in
            exists n, length ch' = (length ch + n)%nat
                      /\ attempted env flags l ch w0
                         = take (n + match f with Next => 0 | _ => 1 end) l
                      /\ (n + match f with Next => 0 | _ => 1 end <= length l)%nat)
    as H.
  { induction l as [|symbol l IH]; intros ch w0; cbn.
    - exists 0%nat. repeat split; lia.
    - pose proof (Collect_symbol_sample env flags symbol ch w0) as Hs.
      destruct (fst (resolve env flags symbol w0)) as [[qret err] cached].
      destruct (Collect_symbol env flags symbol ch w0) as [[f ch1] w1].
      assert (f <> Next /\ ch1 = ch \/ f = Next /\ length ch1 = S (length ch))
        as [[Hf ->] | [-> Hlen]].
      { destruct err as [msg|]; [left; destruct Hs as [-> ->]; split; [discriminate|reflexivity]|].
        destruct qret as [|price]; [left; destruct Hs as [-> ->]; split; [discriminate|reflexivity]|].
        destruct (strings.ValidString symbol); [right | left; exact Hs].
        destruct Hs as [-> ->]. split; [reflexivity|]. rewrite length_app. cbn. lia. }
      + destruct f; [congruence| |]; (exists 0%nat; cbn; repeat split; lia).
      + specialize (IH ch1 w1).
        destruct (Collect_range env flags l ch1 w1) as [[f' ch'] w'].
        destruct IH as (n & Hl & Hatt & Hle).
        exists (S n). cbn. rewrite Hatt. repeat split; lia. }
  specialize (H (symbols c) [] (queryCount_Inc w)).
  destruct (Collect_range env flags (symbols c) [] (queryCount_Inc w))
    as [[f ch] w'].
  destruct H as (n & Hl & Hatt & Hle). cbn in Hl. subst n.
  split; [|exact Hatt].
  rewrite Hatt, length_take. lia.
Qed.

End Asked.
